(** * IPTS host/ME protocol: wire format and driver context

    A shallow embedding of [protocol.h] and [context.h] of the Intel Precise
    Touch & Stylus driver.  The two headers hold no functions: they declare
    constants, two macros, three enumerations, six packed wire structures
    and the driver context.  The embedding therefore has three layers:

    - the C rules the declarations rely on (how an [enum] numbers its
      enumerators, how a packed [struct] and a [union] are laid out, how a
      fixed-width unsigned integer is stored), written once and generically;
    - the declarations themselves, transcribed member by member;
    - values of the structures as records, with their byte images.

    Integers are [Z]; a byte is a [Z] in [0, 256); wrap-around of the
    fixed-width types is written out with [mod]. *)

From Stdlib Require Import ZArith String List Bool Lia.
Import ListNotations.

#[local] Set Warnings "-register-all".

Local Open Scope string_scope.
Local Open Scope Z_scope.
Local Open Scope list_scope.

(** ** Fixed-width unsigned integers in memory *)

(** [store_le w z] is the image of [z] in a [w]-byte unsigned object, least
    significant byte first (the ME is reached from x86 hosts only).  Storing
    truncates: only [z mod 256^w] survives. *)
Fixpoint store_le (w : nat) (z : Z) : list Z :=
  match w with
  | O => []
  | S w' => z mod 256 :: store_le w' (z / 256)
  end.

(** Reading an unsigned object back from its bytes. *)
Fixpoint load_le (bs : list Z) : Z :=
  match bs with
  | [] => 0
  | b :: rest => b + 256 * load_le rest
  end.

(** [slice off len bs]: the [len] bytes of [bs] that start at offset [off]. *)
Definition slice (off len : Z) (bs : list Z) : list Z :=
  firstn (Z.to_nat len) (skipn (Z.to_nat off) bs).

(** [zero_fill n bs]: [bs] followed by as many zero bytes as are needed to
    reach [n] bytes. *)
Definition zero_fill (n : nat) (bs : list Z) : list Z :=
  bs ++ repeat 0 (n - length bs)%nat.

(** The first [n] cells of a C array, given as a function of the index. *)
Definition cells {A : Type} (n : Z) (f : nat -> A) : list A :=
  map f (seq 0 (Z.to_nat n)).

(** ** C enumerations *)

(** An enumeration as written: enumerators in order, each with the explicit
    value it is given, if any. *)
Definition enum_decl : Type := list (string * option Z).

(** The C numbering rule: an enumerator without a value gets the previous
    one's plus one, the very first gets zero. *)
Fixpoint enumerate (next : Z) (d : enum_decl) : list (string * Z) :=
  match d with
  | [] => []
  | (name, given) :: rest =>
      let v := match given with Some x => x | None => next end in
      (name, v) :: enumerate (v + 1) rest
  end.

Definition enum_values (d : enum_decl) : list (string * Z) := enumerate 0 d.

Fixpoint assoc {A : Type} (name : string) (l : list (string * A)) : option A :=
  match l with
  | [] => None
  | (n, a) :: rest => if String.eqb n name then Some a else assoc name rest
  end.

(** The value of one enumerator; [None] when the enumeration has none of
    that name (the C compiler would reject the program). *)
Definition enum_value (d : enum_decl) (name : string) : option Z :=
  assoc name (enum_values d).

(** ** C object types *)

(** The types the wire structures are made of.  Every structure of
    [protocol.h] is [__packed], so a [Struct] has no padding; the unions have
    packed members only and so no padding either. *)
Inductive ctype : Type :=
| U8
| U16
| U32
| Arr (n : Z) (elem : ctype)
| Struct (tag : string) (members : list (string * ctype))
| Union (members : list (string * ctype)).

(** [sizeof]: members of a packed struct follow each other, members of a
    union overlap. *)
Fixpoint sizeof (t : ctype) : Z :=
  match t with
  | U8 => 1
  | U16 => 2
  | U32 => 4
  | Arr n elem => n * sizeof elem
  | Struct _ members =>
      (fix total (ms : list (string * ctype)) : Z :=
         match ms with
         | [] => 0
         | (_, m) :: rest => sizeof m + total rest
         end) members
  | Union members =>
      (fix widest (ms : list (string * ctype)) : Z :=
         match ms with
         | [] => 0
         | (_, m) :: rest => Z.max (sizeof m) (widest rest)
         end) members
  end.

(** Induction over [ctype] that reaches the members of structs and unions. *)
Section ctype_induction.
Variable P : ctype -> Prop.
Hypothesis HU8 : P U8.
Hypothesis HU16 : P U16.
Hypothesis HU32 : P U32.
Hypothesis HArr : forall n elem, P elem -> P (Arr n elem).
Hypothesis HStruct :
  forall tag ms, Forall (fun m => P (snd m)) ms -> P (Struct tag ms).
Hypothesis HUnion :
  forall ms, Forall (fun m => P (snd m)) ms -> P (Union ms).

Fixpoint ctype_members_ind (t : ctype) : P t :=
  match t with
  | U8 => HU8
  | U16 => HU16
  | U32 => HU32
  | Arr n elem => HArr n elem (ctype_members_ind elem)
  | Struct tag ms =>
      HStruct tag ms
        ((fix all (l : list (string * ctype)) : Forall (fun m => P (snd m)) l :=
            match l with
            | [] => Forall_nil _
            | m :: rest =>
                Forall_cons m (ctype_members_ind (snd m)) (all rest)
            end) ms)
  | Union ms =>
      HUnion ms
        ((fix all (l : list (string * ctype)) : Forall (fun m => P (snd m)) l :=
            match l with
            | [] => Forall_nil _
            | m :: rest =>
                Forall_cons m (ctype_members_ind (snd m)) (all rest)
            end) ms)
  end.
End ctype_induction.

Definition members_of (t : ctype) : list (string * ctype) :=
  match t with
  | Struct _ ms => ms
  | Union ms => ms
  | _ => []
  end.

(** Where a member of a packed struct lives: its byte offset ([offsetof])
    and its type.  The search starts with [off] bytes already laid out. *)
Fixpoint slot_from (off : Z) (ms : list (string * ctype)) (name : string)
  : option (Z * ctype) :=
  match ms with
  | [] => None
  | (n, m) :: rest =>
      if String.eqb n name then Some (off, m)
      else slot_from (off + sizeof m) rest name
  end.

Definition member_slot (t : ctype) (name : string) : option (Z * ctype) :=
  match t with
  | Struct _ ms => slot_from 0 ms name
  | Union ms => option_map (fun m => (0, m)) (assoc name ms)
  | _ => None
  end.

(** ** Values and their byte images *)

Inductive cval : Type :=
| VInt (z : Z)
| VArr (elems : list cval)
| VStruct (vals : list cval)
| VUnion (member : string) (v : cval).

(** [encode t v]: the bytes of an object of type [t] holding [v].  A union
    holds one member; the bytes past a short member are zero (commands are
    cleared before they are filled in: parameter bytes that are not needed
    are 0). *)
Fixpoint encode (t : ctype) (v : cval) {struct t} : list Z :=
  match t, v with
  | U8, VInt z => store_le 1 z
  | U16, VInt z => store_le 2 z
  | U32, VInt z => store_le 4 z
  | Arr _ elem, VArr elems => flat_map (encode elem) elems
  | Struct _ members, VStruct vals =>
      (fix each (ms : list (string * ctype)) (vs : list cval) : list Z :=
         match ms, vs with
         | (_, m) :: ms', v' :: vs' => encode m v' ++ each ms' vs'
         | _, _ => []
         end) members vals
  | Union members, VUnion name v' =>
      zero_fill (Z.to_nat (sizeof (Union members)))
        ((fix pick (ms : list (string * ctype)) : list Z :=
            match ms with
            | [] => []
            | (n, m) :: ms' => if String.eqb n name then encode m v' else pick ms'
            end) members)
  | _, _ => []
  end.

(** [has_type t v]: [v] has the shape of a [t]. *)
Fixpoint has_type (t : ctype) (v : cval) {struct t} : bool :=
  match t, v with
  | U8, VInt _ | U16, VInt _ | U32, VInt _ => true
  | Arr n elem, VArr elems =>
      (Z.of_nat (length elems) =? n) && forallb (has_type elem) elems
  | Struct _ members, VStruct vals =>
      (fix each (ms : list (string * ctype)) (vs : list cval) : bool :=
         match ms, vs with
         | [], [] => true
         | (_, m) :: ms', v' :: vs' => has_type m v' && each ms' vs'
         | _, _ => false
         end) members vals
  | Union members, VUnion name v' =>
      (fix pick (ms : list (string * ctype)) : bool :=
         match ms with
         | [] => false
         | (n, m) :: ms' => if String.eqb n name then has_type m v' else pick ms'
         end) members
  | _, _ => false
  end.

(** The image of the member of a union that is called [name], looked up by
    name; it is what [encode] writes for the union before the zero fill
    ([encode_union] below). *)
Definition union_image (ms : list (string * ctype)) (name : string) (v : cval)
  : list Z :=
  match assoc name ms with
  | Some m => encode m v
  | None => []
  end.

(** Reading a member back out of the bytes of a struct. *)
Definition read_member (t : ctype) (name : string) (bs : list Z) : Z :=
  match member_slot t name with
  | Some (off, m) => load_le (slice off (sizeof m) bs)
  | None => 0
  end.

(** Reading cell [i] of an array member. *)
Definition read_cell (t : ctype) (name : string) (i : nat) (bs : list Z) : Z :=
  match member_slot t name with
  | Some (off, Arr _ elem) =>
      load_le (slice (off + Z.of_nat i * sizeof elem) (sizeof elem) bs)
  | _ => 0
  end.

(** ** Reading objects back from bytes *)

(** [plain t]: [t] has no union in it and no array of negative length, so
    its bytes alone say what it holds. *)
Fixpoint plain (t : ctype) : bool :=
  match t with
  | U8 | U16 | U32 => true
  | Arr n elem => (0 <=? n) && plain elem
  | Struct _ members =>
      (fix all (ms : list (string * ctype)) : bool :=
         match ms with
         | [] => true
         | (_, m) :: rest => plain m && all rest
         end) members
  | Union _ => false
  end.

(** [chunks dec size k bs]: [k] objects of [size] bytes each, read one
    after the other from the front of [bs]. *)
Fixpoint chunks (dec : list Z -> option cval) (size k : nat) (bs : list Z)
  : option (list cval) :=
  match k with
  | O => Some []
  | S k' =>
      match dec bs, chunks dec size k' (skipn size bs) with
      | Some v, Some vs => Some (v :: vs)
      | _, _ => None
      end
  end.

(** [decode t bs]: the value an object of type [t] holds when its bytes are
    the front of [bs].  The bytes of a union do not say which member they
    hold, so a union is not decoded. *)
Fixpoint decode (t : ctype) (bs : list Z) {struct t} : option cval :=
  match t with
  | U8 => Some (VInt (load_le (firstn 1 bs)))
  | U16 => Some (VInt (load_le (firstn 2 bs)))
  | U32 => Some (VInt (load_le (firstn 4 bs)))
  | Arr n elem =>
      option_map VArr
        (chunks (decode elem) (Z.to_nat (sizeof elem)) (Z.to_nat n) bs)
  | Struct _ members =>
      option_map VStruct
        ((fix each (ms : list (string * ctype)) (bs : list Z)
            : option (list cval) :=
            match ms with
            | [] => Some []
            | (_, m) :: ms' =>
                match decode m bs, each ms' (skipn (Z.to_nat (sizeof m)) bs) with
                | Some v, Some vs => Some (v :: vs)
                | _, _ => None
                end
            end) members bs)
  | Union _ => None
  end.

(** [wrap t v]: [v] as an object of type [t] keeps it, every integer
    truncated to the width of its member. *)
Fixpoint wrap (t : ctype) (v : cval) {struct t} : cval :=
  match t, v with
  | U8, VInt z => VInt (z mod 2 ^ 8)
  | U16, VInt z => VInt (z mod 2 ^ 16)
  | U32, VInt z => VInt (z mod 2 ^ 32)
  | Arr _ elem, VArr elems => VArr (map (wrap elem) elems)
  | Struct _ members, VStruct vals =>
      VStruct
        ((fix each (ms : list (string * ctype)) (vs : list cval) : list cval :=
            match ms, vs with
            | (_, m) :: ms', v' :: vs' => wrap m v' :: each ms' vs'
            | _, _ => []
            end) members vals)
  | _, _ => v
  end.

(** [offsetof] along a path of member names, as in
    [offsetof(struct ipts_response, data.device_info.data_size)]. *)
Fixpoint nested_slot (t : ctype) (path : list string) : option (Z * ctype) :=
  match path with
  | [] => Some (0, t)
  | name :: rest =>
      match member_slot t name with
      | Some (off, m) =>
          match nested_slot m rest with
          | Some (off', m') => Some (off + off', m')
          | None => None
          end
      | None => None
      end
  end.

Definition read_path (t : ctype) (path : list string) (bs : list Z) : Z :=
  match nested_slot t path with
  | Some (off, m) => load_le (slice off (sizeof m) bs)
  | None => 0
  end.

Definition is_byte (b : Z) : Prop := 0 <= b < 256.

(** * protocol.h *)


(** How many data / feedback buffers IPTS uses. *)
Definition IPTS_BUFFERS : Z := 16.

(** Events that can be sent to and received from the ME. *)
Definition ipts_evt_code : enum_decl :=
  [ ("IPTS_EVT_GET_DEVICE_INFO", Some 1);
    ("IPTS_EVT_SET_MODE", None);
    ("IPTS_EVT_SET_MEM_WINDOW", None);
    ("IPTS_EVT_QUIESCE_IO", None);
    ("IPTS_EVT_READY_FOR_DATA", None);
    ("IPTS_EVT_FEEDBACK", None);
    ("IPTS_EVT_CLEAR_MEM_WINDOW", None);
    ("IPTS_EVT_NOTIFY_DEV_READY", None) ].

(** [IPTS_CMD(COMMAND)] pastes the token onto [IPTS_EVT_] and so names an
    enumerator of [ipts_evt_code].  [COMMAND] is the one identifier the
    macro is written with, as in [IPTS_CMD(FEEDBACK)]; an argument that is
    not a single identifier, or that is itself a macro name, is outside
    this model.  An identifier that names no enumerator gives [None], where
    the C compiler rejects the program. *)
Definition IPTS_CMD (COMMAND : string) : option Z :=
  enum_value ipts_evt_code (String.append "IPTS_EVT_" COMMAND).

(** [IPTS_RSP(COMMAND)] is [(IPTS_CMD(COMMAND) + 0x80000000)].  The literal
    does not fit an [int], so it is an [unsigned int] and the sum is taken
    modulo 2^32. *)
Definition IPTS_RSP (COMMAND : string) : option Z :=
  option_map (fun c => (c + 0x80000000) mod 2 ^ 32) (IPTS_CMD COMMAND).

(** Status codes returned from the ME. *)
Definition ipts_me_status : enum_decl :=
  [ ("IPTS_ME_STATUS_SUCCESS", Some 0);
    ("IPTS_ME_STATUS_INVALID_PARAMS", None);
    ("IPTS_ME_STATUS_ACCESS_DENIED", None);
    ("IPTS_ME_STATUS_CMD_SIZE_ERROR", None);
    ("IPTS_ME_STATUS_NOT_READY", None);
    ("IPTS_ME_STATUS_REQUEST_OUTSTANDING", None);
    ("IPTS_ME_STATUS_NO_SENSOR_FOUND", None);
    ("IPTS_ME_STATUS_OUT_OF_MEMORY", None);
    ("IPTS_ME_STATUS_INTERNAL_ERROR", None);
    ("IPTS_ME_STATUS_SENSOR_DISABLED", None);
    ("IPTS_ME_STATUS_COMPAT_CHECK_FAIL", None);
    ("IPTS_ME_STATUS_SENSOR_EXPECTED_RESET", None);
    ("IPTS_ME_STATUS_SENSOR_UNEXPECTED_RESET", None);
    ("IPTS_ME_STATUS_RESET_FAILED", None);
    ("IPTS_ME_STATUS_TIMEOUT", None);
    ("IPTS_ME_STATUS_TEST_MODE_FAIL", None);
    ("IPTS_ME_STATUS_SENSOR_FAIL_FATAL", None);
    ("IPTS_ME_STATUS_SENSOR_FAIL_NONFATAL", None);
    ("IPTS_ME_STATUS_INVALID_DEVICE_CAPS", None);
    ("IPTS_ME_STATUS_QUIESCE_IO_IN_PROGRESS", None);
    ("IPTS_ME_STATUS_MAX", None) ].

(** The mode that IPTS will use. *)
Definition ipts_sensor_mode : enum_decl :=
  [ ("IPTS_SENSOR_MODE_SINGLETOUCH", Some 0);
    ("IPTS_SENSOR_MODE_MULTITOUCH", None) ].

(** The parameters for the SET_MODE command. *)
Module ipts_set_mode_cmd.
Definition layout : ctype :=
  Struct "ipts_set_mode_cmd"
    [ ("sensor_mode", U32);
      ("reserved", Arr 12 U8) ].

Record t : Type := mk {
  sensor_mode : Z;
  reserved : nat -> Z
}.

Definition to_val (c : t) : cval :=
  VStruct [ VInt (sensor_mode c);
            VArr (map VInt (cells 12 (reserved c))) ].

Definition serialize (c : t) : list Z := encode layout (to_val c).
End ipts_set_mode_cmd.

(** The parameters for the SET_MEM_WINDOW command. *)
Module ipts_set_mem_window_cmd.
Definition layout : ctype :=
  Struct "ipts_set_mem_window_cmd"
    [ ("data_buffer_addr_lower", Arr IPTS_BUFFERS U32);
      ("data_buffer_addr_upper", Arr IPTS_BUFFERS U32);
      ("workqueue_addr_lower", U32);
      ("workqueue_addr_upper", U32);
      ("doorbell_addr_lower", U32);
      ("doorbell_addr_upper", U32);
      ("feedback_buffer_addr_lower", Arr IPTS_BUFFERS U32);
      ("feedback_buffer_addr_upper", Arr IPTS_BUFFERS U32);
      ("host2me_addr_lower", U32);
      ("host2me_addr_upper", U32);
      ("host2me_size", U32);
      ("reserved1", U8);
      ("workqueue_item_size", U8);
      ("workqueue_size", U16);
      ("reserved", Arr 32 U8) ].

Record t : Type := mk {
  data_buffer_addr_lower : nat -> Z;
  data_buffer_addr_upper : nat -> Z;
  workqueue_addr_lower : Z;
  workqueue_addr_upper : Z;
  doorbell_addr_lower : Z;
  doorbell_addr_upper : Z;
  feedback_buffer_addr_lower : nat -> Z;
  feedback_buffer_addr_upper : nat -> Z;
  host2me_addr_lower : Z;
  host2me_addr_upper : Z;
  host2me_size : Z;
  reserved1 : Z;
  workqueue_item_size : Z;
  workqueue_size : Z;
  reserved : nat -> Z
}.

Definition to_val (c : t) : cval :=
  VStruct [ VArr (map VInt (cells IPTS_BUFFERS (data_buffer_addr_lower c)));
            VArr (map VInt (cells IPTS_BUFFERS (data_buffer_addr_upper c)));
            VInt (workqueue_addr_lower c);
            VInt (workqueue_addr_upper c);
            VInt (doorbell_addr_lower c);
            VInt (doorbell_addr_upper c);
            VArr (map VInt (cells IPTS_BUFFERS (feedback_buffer_addr_lower c)));
            VArr (map VInt (cells IPTS_BUFFERS (feedback_buffer_addr_upper c)));
            VInt (host2me_addr_lower c);
            VInt (host2me_addr_upper c);
            VInt (host2me_size c);
            VInt (reserved1 c);
            VInt (workqueue_item_size c);
            VInt (workqueue_size c);
            VArr (map VInt (cells 32 (reserved c))) ].

Definition serialize (c : t) : list Z := encode layout (to_val c).
End ipts_set_mem_window_cmd.

(** The parameters for the FEEDBACK command. *)
Module ipts_feedback_cmd.
Definition layout : ctype :=
  Struct "ipts_feedback_cmd"
    [ ("buffer", U32);
      ("transaction", U32);
      ("reserved", Arr 8 U8) ].

Record t : Type := mk {
  buffer : Z;
  transaction : Z;
  reserved : nat -> Z
}.

Definition to_val (c : t) : cval :=
  VStruct [ VInt (buffer c);
            VInt (transaction c);
            VArr (map VInt (cells 8 (reserved c))) ].

Definition serialize (c : t) : list Z := encode layout (to_val c).
End ipts_feedback_cmd.

(** Commands are sent from the host to the ME: a command code and,
    optionally, a set of parameters. *)
Module ipts_command.
Definition data_layout : ctype :=
  Union [ ("set_mode", ipts_set_mode_cmd.layout);
          ("set_mem_window", ipts_set_mem_window_cmd.layout);
          ("feedback", ipts_feedback_cmd.layout) ].

Definition layout : ctype :=
  Struct "ipts_command"
    [ ("code", U32);
      ("data", data_layout) ].

Inductive data_t : Type :=
| set_mode (p : ipts_set_mode_cmd.t)
| set_mem_window (p : ipts_set_mem_window_cmd.t)
| feedback (p : ipts_feedback_cmd.t).

Record t : Type := mk {
  code : Z;
  data : data_t
}.

Definition data_val (d : data_t) : cval :=
  match d with
  | set_mode p => VUnion "set_mode" (ipts_set_mode_cmd.to_val p)
  | set_mem_window p => VUnion "set_mem_window" (ipts_set_mem_window_cmd.to_val p)
  | feedback p => VUnion "feedback" (ipts_feedback_cmd.to_val p)
  end.

Definition to_val (c : t) : cval := VStruct [ VInt (code c); data_val (data c) ].

Definition serialize (c : t) : list Z := encode layout (to_val c).
End ipts_command.

(** The data that is returned in response to the GET_DEVICE_INFO command. *)
Module ipts_device_info.
Definition layout : ctype :=
  Struct "ipts_device_info"
    [ ("vendor_id", U16);
      ("device_id", U16);
      ("hw_rev", U32);
      ("fw_rev", U32);
      ("data_size", U32);
      ("feedback_size", U32);
      ("reserved", Arr 24 U8) ].

Record t : Type := mk {
  vendor_id : Z;
  device_id : Z;
  hw_rev : Z;
  fw_rev : Z;
  data_size : Z;
  feedback_size : Z;
  reserved : nat -> Z
}.

Definition to_val (c : t) : cval :=
  VStruct [ VInt (vendor_id c);
            VInt (device_id c);
            VInt (hw_rev c);
            VInt (fw_rev c);
            VInt (data_size c);
            VInt (feedback_size c);
            VArr (map VInt (cells 24 (reserved c))) ].

Definition serialize (c : t) : list Z := encode layout (to_val c).
End ipts_device_info.

(** Responses are sent from the ME to the host in reaction to a command. *)
Module ipts_response.
Definition data_layout : ctype :=
  Union [ ("device_info", ipts_device_info.layout);
          ("reserved", Arr 80 U8) ].

Definition layout : ctype :=
  Struct "ipts_response"
    [ ("code", U32);
      ("status", U32);
      ("data", data_layout) ].

Inductive data_t : Type :=
| device_info (p : ipts_device_info.t)
| reserved (bytes : nat -> Z).

Record t : Type := mk {
  code : Z;
  status : Z;
  data : data_t
}.

Definition data_val (d : data_t) : cval :=
  match d with
  | device_info p => VUnion "device_info" (ipts_device_info.to_val p)
  | reserved bytes => VUnion "reserved" (VArr (map VInt (cells 80 bytes)))
  end.

Definition to_val (c : t) : cval :=
  VStruct [ VInt (code c); VInt (status c); data_val (data c) ].

Definition serialize (c : t) : list Z := encode layout (to_val c).
End ipts_response.

(** * context.h *)

(** The types of the driver's own (host-side) structures: wire objects,
    pointers to kernel objects, DMA addresses, arrays and structs of these.
    Host structures are not packed and hold pointers, so no size is given
    to them here.  [HNamed tag] is a [struct tag] that the two headers name
    and do not declare. *)
Inductive htype : Type :=
| HWire (t : ctype)
| HPtr (target : string)
| HDma
| HArr (n : Z) (elem : htype)
| HStruct (tag : string) (members : list (string * htype))
| HNamed (tag : string).

Definition hmembers (t : htype) : list (string * htype) :=
  match t with
  | HStruct _ ms => ms
  | _ => []
  end.

Definition ipts_buffer_info : htype :=
  HStruct "ipts_buffer_info"
    [ ("address", HPtr "u8");
      ("dma_address", HDma) ].

(** The member [device_info] is written [struct ipts_get_device_info_rsp
    device_info;].  Neither header declares a structure of that tag (the
    device-info structure of [protocol.h] is [ipts_device_info]), so the
    member is transcribed with the tag it is written with. *)
Definition ipts_context : htype :=
  HStruct "ipts_context"
    [ ("cldev", HPtr "mei_cl_device");
      ("dev", HPtr "device");
      ("device_info", HNamed "ipts_get_device_info_rsp");
      ("data", HArr IPTS_BUFFERS ipts_buffer_info);
      ("doorbell", ipts_buffer_info);
      ("feedback", HArr IPTS_BUFFERS ipts_buffer_info);
      ("workqueue", ipts_buffer_info);
      ("host2me", ipts_buffer_info);
      ("ready", HWire U8) ].

(** ** Reading the declarations *)

(** One object, or an array of [n]. *)
Inductive shape : Type :=
| Single
| Array (n : Z).

Definition shape_eqb (a b : shape) : bool :=
  match a, b with
  | Single, Single => true
  | Array n, Array m => Z.eqb n m
  | _, _ => false
  end.

Definition shape_count (s : shape) : Z :=
  match s with
  | Single => 1
  | Array n => n
  end.

(** What a member of a host structure is for. *)
Inductive kind : Type :=
| Handle (target : string)
| Wire (tag : string)
| Buffers (s : shape)
| Scalar (bytes : Z)
| Named (tag : string)
| Other.

Definition kind_of (t : htype) : kind :=
  match t with
  | HPtr target => Handle target
  | HWire (Struct tag _) => Wire tag
  | HWire (Arr _ _) | HWire (Union _) => Other
  | HWire scalar => Scalar (sizeof scalar)
  | HStruct tag _ =>
      if String.eqb tag "ipts_buffer_info" then Buffers Single else Other
  | HArr n (HStruct tag _) =>
      if String.eqb tag "ipts_buffer_info" then Buffers (Array n) else Other
  | HNamed tag => Named tag
  | _ => Other
  end.

Definition inventory (t : htype) : list (string * kind) :=
  map (fun m => (fst m, kind_of (snd m))) (hmembers t).

(** The buffer members of a host structure, each with its shape. *)
Definition pool_members (t : htype) : list (string * shape) :=
  flat_map (fun m => match snd m with
                     | Buffers s => [(fst m, s)]
                     | _ => []
                     end) (inventory t).

(** [strip_suffix suffix s]: [s] without its ending [suffix], when it has
    that ending. *)
Definition strip_suffix (suffix s : string) : option string :=
  let n := (String.length s - String.length suffix)%nat in
  if (String.length suffix <=? String.length s)%nat
     && String.eqb (substring n (String.length suffix) s) suffix
  then Some (substring 0 n s)
  else None.

(** The shape of one half of a split address: a 32-bit word or an array of
    them. *)
Definition half_shape (t : ctype) : option shape :=
  match t with
  | U32 => Some Single
  | Arr n U32 => Some (Array n)
  | _ => None
  end.

Definition has_half (ms : list (string * ctype)) (name : string) (s : shape) : bool :=
  match assoc name ms with
  | Some m => match half_shape m with
              | Some s' => shape_eqb s s'
              | None => false
              end
  | None => false
  end.

(** The split addresses a wire structure carries: every [X_addr_lower]
    member of 32-bit words that has an [X_addr_upper] member of the same
    shape, as [(X, shape)]. *)
Definition addr_pairs (t : ctype) : list (string * shape) :=
  flat_map (fun m =>
              match strip_suffix "_addr_lower" (fst m), half_shape (snd m) with
              | Some stem, Some s =>
                  if has_half (members_of t) (String.append stem "_addr_upper") s
                  then [(stem, s)] else []
              | _, _ => []
              end) (members_of t).

Definition singles {A : Type} (l : list (A * shape)) : list A :=
  flat_map (fun p => match snd p with Single => [fst p] | Array _ => [] end) l.


Definition total_count {A : Type} (l : list (A * shape)) : Z :=
  fold_right (fun p acc => shape_count (snd p) + acc) 0 l.

(** Whether a wire structure carries the address of a buffer member of a
    host structure: an address pair of the member's shape whose name starts
    with the member's name. *)
Definition carries_address_of (window : ctype) (member : string * shape) : bool :=
  existsb (fun p => String.prefix (fst member) (fst p)
                    && shape_eqb (snd member) (snd p))
          (addr_pairs window).

(** The other way round: an address pair of a wire structure that is the
    address of some buffer member of the host structure. *)
Definition addresses_buffer_of (host : htype) (pair : string * shape) : bool :=
  existsb (fun m => String.prefix (fst m) (fst pair)
                    && shape_eqb (snd m) (snd pair))
          (pool_members host).

(** Whether a host structure has a member of a given kind. *)
Definition has_kind (t : htype) (p : kind -> bool) : bool :=
  existsb (fun m => p (snd m)) (inventory t).

Definition is_handle (k : kind) : bool :=
  match k with
  | Handle _ => true
  | _ => false
  end.

Definition is_wire (tag : string) (k : kind) : bool :=
  match k with
  | Wire g => String.eqb g tag
  | _ => false
  end.

(** A member that holds the device info: a structure under the tag
    [protocol.h] declares it with, [ipts_device_info], or under the tag
    [context.h] writes, [ipts_get_device_info_rsp]. *)
Definition is_device_info (k : kind) : bool :=
  match k with
  | Wire tag | Named tag =>
      String.eqb tag "ipts_device_info"
      || String.eqb tag "ipts_get_device_info_rsp"
  | _ => false
  end.

(** The structures [protocol.h] declares, and whether one of them has a
    given tag. *)
Definition protocol_structs : list ctype :=
  [ ipts_set_mode_cmd.layout; ipts_set_mem_window_cmd.layout;
    ipts_feedback_cmd.layout; ipts_command.layout;
    ipts_device_info.layout; ipts_response.layout ].

Definition declares (tag : string) : bool :=
  existsb (fun t => match t with
                    | Struct g _ => String.eqb g tag
                    | _ => false
                    end) protocol_structs.

(** An unsigned integer member of at least [bytes] bytes. *)
Definition is_scalar (bytes : Z) (k : kind) : bool :=
  match k with
  | Scalar w => bytes <=? w
  | _ => false
  end.

Definition has_buffers (t : htype) (name : string) (s : shape) : bool :=
  existsb (fun m => String.eqb (fst m) name && shape_eqb (snd m) s)
          (pool_members t).

(** The buffer pool: 16 data buffers, 16 feedback buffers, the doorbell,
    the work queue and the host-to-ME buffer. *)
Definition has_pool (t : htype) : bool :=
  has_buffers t "data" (Array 16)
  && has_buffers t "feedback" (Array 16)
  && has_buffers t "doorbell" Single
  && has_buffers t "workqueue" Single
  && has_buffers t "host2me" Single.

(** The parts a session is said to be made of: a device handle, the device
    info, the buffer pool, the memory window, the lifecycle state, and the
    last doorbell value seen (the doorbell is a 32-bit counter). *)
Definition session_parts_listed (t : htype) : bool :=
  has_kind t is_handle
  && has_kind t is_device_info
  && has_pool t
  && has_kind t (is_wire "ipts_set_mem_window_cmd")
  && has_kind t (is_scalar 1)
  && has_kind t (is_scalar 4).

(** ** The buffers behind the memory window *)

(** A buffer whose address the memory window carries: cell [i] of the data
    or of the feedback array, or one of the three single buffers. *)
Inductive window_buffer : Type :=
| WData (i : nat)
| WWorkqueue
| WDoorbell
| WFeedback (i : nat)
| WHost2me.

(** The index of an array buffer is below the array bound. *)
Definition in_window (b : window_buffer) : bool :=
  match b with
  | WData i | WFeedback i => Z.of_nat i <? IPTS_BUFFERS
  | _ => true
  end.

(** The lower and upper address words a memory window holds for a buffer. *)
Definition stored_halves (w : ipts_set_mem_window_cmd.t) (b : window_buffer)
  : Z * Z :=
  match b with
  | WData i =>
      (ipts_set_mem_window_cmd.data_buffer_addr_lower w i,
       ipts_set_mem_window_cmd.data_buffer_addr_upper w i)
  | WWorkqueue =>
      (ipts_set_mem_window_cmd.workqueue_addr_lower w,
       ipts_set_mem_window_cmd.workqueue_addr_upper w)
  | WDoorbell =>
      (ipts_set_mem_window_cmd.doorbell_addr_lower w,
       ipts_set_mem_window_cmd.doorbell_addr_upper w)
  | WFeedback i =>
      (ipts_set_mem_window_cmd.feedback_buffer_addr_lower w i,
       ipts_set_mem_window_cmd.feedback_buffer_addr_upper w i)
  | WHost2me =>
      (ipts_set_mem_window_cmd.host2me_addr_lower w,
       ipts_set_mem_window_cmd.host2me_addr_upper w)
  end.

(** The same two words, read from the bytes of the payload. *)
Definition read_halves (bs : list Z) (b : window_buffer) : Z * Z :=
  let member := read_member ipts_set_mem_window_cmd.layout in
  let cell := read_cell ipts_set_mem_window_cmd.layout in
  match b with
  | WData i =>
      (cell "data_buffer_addr_lower" i bs, cell "data_buffer_addr_upper" i bs)
  | WWorkqueue =>
      (member "workqueue_addr_lower" bs, member "workqueue_addr_upper" bs)
  | WDoorbell =>
      (member "doorbell_addr_lower" bs, member "doorbell_addr_upper" bs)
  | WFeedback i =>
      (cell "feedback_buffer_addr_lower" i bs,
       cell "feedback_buffer_addr_upper" i bs)
  | WHost2me =>
      (member "host2me_addr_lower" bs, member "host2me_addr_upper" bs)
  end.

(** The address two halves stand for. *)
Definition join_halves (h : Z * Z) : Z := fst h + 2 ^ 32 * snd h.

(** * Parts of the driver that are not in the two headers *)

(** Modelled from the spec: the doorbell receiver's resolution of a doorbell
    value to a data buffer (the receiver's C file is not among the sources).
    The spec: [index = doorbell_value mod 16], sixteen being the pool size
    [IPTS_BUFFERS]. *)
Definition buffer_index (d : Z) : Z := d mod IPTS_BUFFERS.

(** Modelled from the spec: the buffer pool manager's allocation (the C file
    that allocates is not among the sources).  The spec: 16 data buffers
    sized to [DeviceInfo.data_size], 16 feedback buffers sized to
    [DeviceInfo.feedback_size], one doorbell buffer (word-sized), one
    work-queue buffer (fixed 8192 bytes, fixed 16-byte item stride), one
    host-to-device buffer (size as negotiated).  A buffer is a host address,
    a device-visible address, a byte length and a pool index. *)
Module pool.
Record Buffer : Type := mkBuffer {
  host_address : Z;
  device_address : Z;
  byte_length : Z;
  pool_index : Z
}.


Section allocate.
(** The DMA collaborator: the [k]-th request, for [size] bytes, hands back
    a host address and a device-visible address. *)
Variable dma_alloc : nat -> Z -> Z * Z.
(** The size negotiated for the host-to-device buffer. *)
Variable host2me_size : Z.

Definition buffer (k : nat) (size index : Z) : Buffer :=
  let a := dma_alloc k size in
  mkBuffer (fst a) (snd a) size index.

End allocate.
End pool.



(** * General facts about the C rules *)

Lemma store_le_length (w : nat) (z : Z) : length (store_le w z) = w.
Proof.
  revert z; induction w as [|w IH]; intros z; cbn [store_le length].
  - reflexivity.
  - now rewrite IH.
Qed.

(** What is read back from a [w]-byte object is what was stored, truncated
    to [w] bytes. *)
Lemma load_store_le (w : nat) (z : Z) :
  load_le (store_le w z) = z mod 256 ^ Z.of_nat w.
Proof.
  revert z; induction w as [|w IH]; intros z; cbn [store_le load_le].
  - now rewrite Z.mod_1_r.
  - rewrite IH, Nat2Z.inj_succ, Z.pow_succ_r by lia.
    symmetry; apply Z.rem_mul_r; [lia | apply Z.pow_pos_nonneg; lia].
Qed.

Lemma load_store_le_small (w : nat) (z : Z) :
  0 <= z < 256 ^ Z.of_nat w -> load_le (store_le w z) = z.
Proof.
  intros Hz; rewrite load_store_le; now apply Z.mod_small.
Qed.

Lemma store_le_bytes (w : nat) (z b : Z) :
  In b (store_le w z) -> 0 <= b < 256.
Proof.
  revert z; induction w as [|w IH]; intros z; cbn [store_le In].
  - tauto.
  - intros [<- | Hin]; [apply Z.mod_pos_bound; lia | eauto].
Qed.

Lemma zero_fill_length (n : nat) (bs : list Z) :
  (length bs <= n)%nat -> length (zero_fill n bs) = n.
Proof.
  intros Hle; unfold zero_fill; rewrite length_app, repeat_length; lia.
Qed.

Lemma assoc_In {A : Type} (name : string) (l : list (string * A)) (a : A) :
  assoc name l = Some a -> In (name, a) l.
Proof.
  induction l as [|[n x] l IH]; cbn [assoc In]; [discriminate|].
  destruct (String.eqb_spec n name) as [->|_].
  - intros [= ->]; now left.
  - intros H; right; auto.
Qed.

Lemma encode_union (ms : list (string * ctype)) (name : string) (v : cval) :
  encode (Union ms) (VUnion name v)
  = zero_fill (Z.to_nat (sizeof (Union ms))) (union_image ms name v).
Proof.
  cbn [encode]; f_equal; unfold union_image.
  induction ms as [|[n m] ms IH]; cbn [assoc]; [reflexivity|].
  destruct (String.eqb n name); [reflexivity | exact IH].
Qed.

Lemma has_type_union (ms : list (string * ctype)) (name : string) (v : cval) :
  has_type (Union ms) (VUnion name v)
  = match assoc name ms with Some m => has_type m v | None => false end.
Proof.
  cbn [has_type].
  induction ms as [|[n m] ms IH]; cbn [assoc]; [reflexivity|].
  destruct (String.eqb n name); [reflexivity | exact IH].
Qed.

Lemma sizeof_union_member (ms : list (string * ctype)) (name : string) (m : ctype) :
  assoc name ms = Some m -> sizeof m <= sizeof (Union ms).
Proof.
  induction ms as [|[n x] ms IH]; cbn [assoc]; [discriminate|].
  change (sizeof (Union ((n, x) :: ms))) with (Z.max (sizeof x) (sizeof (Union ms))).
  destruct (String.eqb n name).
  - intros [= ->]; lia.
  - intros H; specialize (IH H); lia.
Qed.

Lemma flat_map_length_const {A B : Type} (f : A -> list B) (k : Z) (l : list A) :
  Forall (fun a => Z.of_nat (length (f a)) = k) l ->
  Z.of_nat (length (flat_map f l)) = Z.of_nat (length l) * k.
Proof.
  induction 1 as [|a l Ha _ IH]; cbn [flat_map length]; [lia|].
  rewrite length_app; lia.
Qed.

(** A well-shaped value occupies exactly [sizeof] bytes. *)
Lemma encode_length (t : ctype) :
  forall v, has_type t v = true -> Z.of_nat (length (encode t v)) = sizeof t.
Proof.
  induction t as [ | | | n elem IH | tag ms IH | ms IH ] using ctype_members_ind;
    intros v Hv.
  - destruct v; try discriminate; reflexivity.
  - destruct v; try discriminate; reflexivity.
  - destruct v; try discriminate; reflexivity.
  - destruct v as [|elems| |]; try discriminate.
    cbn [has_type] in Hv; apply andb_prop in Hv as [Hn Hall].
    apply Z.eqb_eq in Hn; cbn [encode sizeof].
    rewrite (flat_map_length_const _ (sizeof elem)).
    + now rewrite Hn.
    + rewrite forallb_forall in Hall; apply Forall_forall; auto.
  - destruct v as [| |vals|]; try discriminate.
    revert vals Hv; induction IH as [|[n m] ms Hm _ IHms]; intros vals Hv.
    + destruct vals; [reflexivity | discriminate].
    + destruct vals as [|v vals]; [discriminate|].
      change (has_type m v && has_type (Struct tag ms) (VStruct vals) = true) in Hv.
      apply andb_prop in Hv as [Hv Hvals]; cbn [snd] in Hm.
      change (encode (Struct tag ((n, m) :: ms)) (VStruct (v :: vals)))
        with (encode m v ++ encode (Struct tag ms) (VStruct vals)).
      change (sizeof (Struct tag ((n, m) :: ms)))
        with (sizeof m + sizeof (Struct tag ms)).
      rewrite length_app, Nat2Z.inj_add, (Hm v Hv), (IHms vals Hvals).
      reflexivity.
  - destruct v as [| | |name v]; try discriminate.
    rewrite has_type_union in Hv; rewrite encode_union.
    unfold union_image.
    destruct (assoc name ms) as [m|] eqn:Hm; [|discriminate].
    assert (Hin : In (name, m) ms) by now apply assoc_In.
    rewrite Forall_forall in IH; specialize (IH _ Hin v Hv); cbn [snd] in IH.
    pose proof (sizeof_union_member ms name m Hm) as Hle.
    rewrite zero_fill_length; lia.
Qed.

Lemma zero_fill_bytes (n : nat) (bs : list Z) :
  Forall (fun b => 0 <= b < 256) bs -> Forall (fun b => 0 <= b < 256) (zero_fill n bs).
Proof.
  intros Hbs; unfold zero_fill; apply Forall_app; split; [exact Hbs|].
  apply Forall_forall; intros b Hb; apply repeat_spec in Hb; lia.
Qed.

(** Whatever the value, its image is made of bytes. *)
Lemma encode_bytes (t : ctype) :
  forall v, Forall (fun b => 0 <= b < 256) (encode t v).
Proof.
  induction t as [ | | | n elem IH | tag ms IH | ms IH ] using ctype_members_ind;
    intros v.
  - destruct v; cbn [encode];
      try (apply Forall_forall; intros b; apply store_le_bytes); constructor.
  - destruct v; cbn [encode];
      try (apply Forall_forall; intros b; apply store_le_bytes); constructor.
  - destruct v; cbn [encode];
      try (apply Forall_forall; intros b; apply store_le_bytes); constructor.
  - destruct v as [|elems| |]; cbn [encode]; try constructor.
    induction elems as [|e elems IHe]; cbn [flat_map]; [constructor|].
    apply Forall_app; split; [apply IH | exact IHe].
  - destruct v as [| |vals|]; try (cbn [encode]; constructor).
    revert vals; induction IH as [|[n m] ms Hm _ IHms]; intros vals.
    + destruct vals; constructor.
    + destruct vals as [|v vals]; [constructor|].
      change (encode (Struct tag ((n, m) :: ms)) (VStruct (v :: vals)))
        with (encode m v ++ encode (Struct tag ms) (VStruct vals)).
      apply Forall_app; split; [apply Hm | apply IHms].
  - destruct v as [| | |name v]; try (cbn [encode]; constructor).
    rewrite encode_union; apply zero_fill_bytes; unfold union_image.
    destruct (assoc name ms) as [m|] eqn:Hm; [|constructor].
    apply assoc_In in Hm; rewrite Forall_forall in IH.
    exact (IH _ Hm v).
Qed.

Lemma image_size (t : ctype) (v : cval) (n : nat) :
  has_type t v = true -> sizeof t = Z.of_nat n -> length (encode t v) = n.
Proof.
  intros Hv Hn; apply encode_length in Hv; lia.
Qed.

(** Every record of a wire structure has the shape of its layout. *)
Lemma set_mode_typed (c : ipts_set_mode_cmd.t) :
  has_type ipts_set_mode_cmd.layout (ipts_set_mode_cmd.to_val c) = true.
Proof. reflexivity. Qed.

Lemma set_mem_window_typed (c : ipts_set_mem_window_cmd.t) :
  has_type ipts_set_mem_window_cmd.layout (ipts_set_mem_window_cmd.to_val c) = true.
Proof. reflexivity. Qed.

Lemma feedback_typed (c : ipts_feedback_cmd.t) :
  has_type ipts_feedback_cmd.layout (ipts_feedback_cmd.to_val c) = true.
Proof. reflexivity. Qed.

Lemma device_info_typed (c : ipts_device_info.t) :
  has_type ipts_device_info.layout (ipts_device_info.to_val c) = true.
Proof. reflexivity. Qed.

Lemma command_typed (c : ipts_command.t) :
  has_type ipts_command.layout (ipts_command.to_val c) = true.
Proof. destruct c as [code [p|p|p]]; reflexivity. Qed.

Lemma response_typed (c : ipts_response.t) :
  has_type ipts_response.layout (ipts_response.to_val c) = true.
Proof. destruct c as [code status [p|bytes]]; reflexivity. Qed.

(** Every command the macros know has a code from 1 to 8. *)
Lemma IPTS_CMD_range (COMMAND : string) (c : Z) :
  IPTS_CMD COMMAND = Some c -> 1 <= c <= 8.
Proof.
  unfold IPTS_CMD, enum_value; intros H; apply assoc_In in H.
  cbn in H; repeat (destruct H as [[= _ <-] | H]; [lia|]); contradiction.
Qed.

Lemma load_u8 (z : Z) : load_le (store_le 1 z) = z mod 2 ^ 8.
Proof. exact (load_store_le 1 z). Qed.

Lemma load_u16 (z : Z) : load_le (store_le 2 z) = z mod 2 ^ 16.
Proof. exact (load_store_le 2 z). Qed.

Lemma load_u32 (z : Z) : load_le (store_le 4 z) = z mod 2 ^ 32.
Proof. exact (load_store_le 4 z). Qed.

(** The bytes at a member's slot are the image of the member, so reading
    there gives the stored value. *)
Ltac read_back :=
  first [ rewrite <- load_u32; reflexivity
        | rewrite <- load_u16; reflexivity
        | rewrite <- load_u8; reflexivity ].

(** * The wire format *)

(** C1: the wire structures have their binding sizes, as [sizeof] of the
    declarations (the header's [static_assert]s) and as the length of the
    byte image of every value: command 324, response 88, mode-select 16,
    memory-window 320, feedback 16, device-info 44 bytes. *)
Theorem wire_structure_sizes :
  (sizeof ipts_command.layout = 324
   /\ sizeof ipts_response.layout = 88
   /\ sizeof ipts_set_mode_cmd.layout = 16
   /\ sizeof ipts_set_mem_window_cmd.layout = 320
   /\ sizeof ipts_feedback_cmd.layout = 16
   /\ sizeof ipts_device_info.layout = 44)
  /\ (forall c, length (ipts_command.serialize c) = 324%nat)
  /\ (forall c, length (ipts_response.serialize c) = 88%nat)
  /\ (forall c, length (ipts_set_mode_cmd.serialize c) = 16%nat)
  /\ (forall c, length (ipts_set_mem_window_cmd.serialize c) = 320%nat)
  /\ (forall c, length (ipts_feedback_cmd.serialize c) = 16%nat)
  /\ (forall c, length (ipts_device_info.serialize c) = 44%nat).
Proof.
  split; [repeat apply conj; reflexivity|].
  repeat apply conj; intros c.
  - apply image_size; [apply command_typed | reflexivity].
  - apply image_size; [apply response_typed | reflexivity].
  - apply image_size; [apply set_mode_typed | reflexivity].
  - apply image_size; [apply set_mem_window_typed | reflexivity].
  - apply image_size; [apply feedback_typed | reflexivity].
  - apply image_size; [apply device_info_typed | reflexivity].
Qed.

(** C2: for every command code [c] from 1 to 8 there is a command with that
    code, and the response code [IPTS_RSP] gives for it is
    [c + 0x80000000]. *)
Theorem response_code_of_command (c : Z) :
  1 <= c <= 8 ->
  (exists COMMAND, IPTS_CMD COMMAND = Some c)
  /\ (forall COMMAND, IPTS_CMD COMMAND = Some c ->
                      IPTS_RSP COMMAND = Some (c + 0x80000000)).
Proof.
  intros Hc; split.
  - assert (Hcases : c = 1 \/ c = 2 \/ c = 3 \/ c = 4 \/ c = 5 \/ c = 6 \/ c = 7 \/ c = 8)
      by lia.
    destruct Hcases as [-> | [-> | [-> | [-> | [-> | [-> | [-> | ->]]]]]]].
    + now exists "GET_DEVICE_INFO".
    + now exists "SET_MODE".
    + now exists "SET_MEM_WINDOW".
    + now exists "QUIESCE_IO".
    + now exists "READY_FOR_DATA".
    + now exists "FEEDBACK".
    + now exists "CLEAR_MEM_WINDOW".
    + now exists "NOTIFY_DEV_READY".
  - intros COMMAND Hcmd; unfold IPTS_RSP; rewrite Hcmd; cbn [option_map].
    f_equal; apply Z.mod_small; lia.
Qed.

Lemma response_code_of_command_witness :
  1 <= 6 <= 8
  /\ (exists COMMAND, IPTS_CMD COMMAND = Some 6)
  /\ (forall COMMAND, IPTS_CMD COMMAND = Some 6 ->
                      IPTS_RSP COMMAND = Some (6 + 0x80000000)).
Proof.
  split; [lia | apply (response_code_of_command 6); lia].
Defined.

(** C5: the eight command codes are numbered 1 to 8 in the order
    GET_DEVICE_INFO, SET_MODE, SET_MEM_WINDOW, QUIESCE_IO, READY_FOR_DATA,
    FEEDBACK, CLEAR_MEM_WINDOW, NOTIFY_DEV_READY. *)
Theorem command_codes_numbered :
  enum_values ipts_evt_code
  = [ ("IPTS_EVT_GET_DEVICE_INFO", 1);
      ("IPTS_EVT_SET_MODE", 2);
      ("IPTS_EVT_SET_MEM_WINDOW", 3);
      ("IPTS_EVT_QUIESCE_IO", 4);
      ("IPTS_EVT_READY_FOR_DATA", 5);
      ("IPTS_EVT_FEEDBACK", 6);
      ("IPTS_EVT_CLEAR_MEM_WINDOW", 7);
      ("IPTS_EVT_NOTIFY_DEV_READY", 8) ]
  /\ map IPTS_CMD
       [ "GET_DEVICE_INFO"; "SET_MODE"; "SET_MEM_WINDOW"; "QUIESCE_IO";
         "READY_FOR_DATA"; "FEEDBACK"; "CLEAR_MEM_WINDOW"; "NOTIFY_DEV_READY" ]
     = map (fun i => Some (Z.of_nat i)) (seq 1 8).
Proof. split; reflexivity. Qed.

(** C6: the twenty status codes are numbered 0 to 19 in the listed order,
    from success = 0 to quiesce-io-in-progress = 19; the closing enumerator
    [IPTS_ME_STATUS_MAX] is their number, 20. *)
Theorem status_codes_numbered :
  enum_values ipts_me_status
  = [ ("IPTS_ME_STATUS_SUCCESS", 0);
      ("IPTS_ME_STATUS_INVALID_PARAMS", 1);
      ("IPTS_ME_STATUS_ACCESS_DENIED", 2);
      ("IPTS_ME_STATUS_CMD_SIZE_ERROR", 3);
      ("IPTS_ME_STATUS_NOT_READY", 4);
      ("IPTS_ME_STATUS_REQUEST_OUTSTANDING", 5);
      ("IPTS_ME_STATUS_NO_SENSOR_FOUND", 6);
      ("IPTS_ME_STATUS_OUT_OF_MEMORY", 7);
      ("IPTS_ME_STATUS_INTERNAL_ERROR", 8);
      ("IPTS_ME_STATUS_SENSOR_DISABLED", 9);
      ("IPTS_ME_STATUS_COMPAT_CHECK_FAIL", 10);
      ("IPTS_ME_STATUS_SENSOR_EXPECTED_RESET", 11);
      ("IPTS_ME_STATUS_SENSOR_UNEXPECTED_RESET", 12);
      ("IPTS_ME_STATUS_RESET_FAILED", 13);
      ("IPTS_ME_STATUS_TIMEOUT", 14);
      ("IPTS_ME_STATUS_TEST_MODE_FAIL", 15);
      ("IPTS_ME_STATUS_SENSOR_FAIL_FATAL", 16);
      ("IPTS_ME_STATUS_SENSOR_FAIL_NONFATAL", 17);
      ("IPTS_ME_STATUS_INVALID_DEVICE_CAPS", 18);
      ("IPTS_ME_STATUS_QUIESCE_IO_IN_PROGRESS", 19);
      ("IPTS_ME_STATUS_MAX", 20) ]
  /\ map snd (firstn 20 (enum_values ipts_me_status))
     = map Z.of_nat (seq 0 20).
Proof. split; reflexivity. Qed.

(** C9: single-touch mode is the 32-bit value 0 and multitouch the value 1;
    the mode-select payload holds the mode in its first four bytes and
    twelve reserved bytes after them; the payload for multitouch, the one
    mode the driver asks for, has 1 as its first 32-bit word. *)
Theorem mode_select_encoding :
  enum_values ipts_sensor_mode
  = [ ("IPTS_SENSOR_MODE_SINGLETOUCH", 0); ("IPTS_SENSOR_MODE_MULTITOUCH", 1) ]
  /\ member_slot ipts_set_mode_cmd.layout "sensor_mode" = Some (0, U32)
  /\ member_slot ipts_set_mode_cmd.layout "reserved" = Some (4, Arr 12 U8)
  /\ (forall mode r,
        let bs := ipts_set_mode_cmd.serialize (ipts_set_mode_cmd.mk mode r) in
        length bs = 16%nat
        /\ slice 0 4 bs = store_le 4 mode
        /\ slice 4 12 bs = map (fun i => r i mod 256) (seq 0 12)
        /\ read_member ipts_set_mode_cmd.layout "sensor_mode" bs = mode mod 2 ^ 32)
  /\ (forall r,
        option_map
          (fun mode => slice 0 4 (ipts_set_mode_cmd.serialize (ipts_set_mode_cmd.mk mode r)))
          (enum_value ipts_sensor_mode "IPTS_SENSOR_MODE_MULTITOUCH")
        = Some [1; 0; 0; 0])
  /\ (forall r,
        option_map
          (fun mode =>
             read_member ipts_set_mode_cmd.layout "sensor_mode"
               (ipts_set_mode_cmd.serialize (ipts_set_mode_cmd.mk mode r)))
          (enum_value ipts_sensor_mode "IPTS_SENSOR_MODE_MULTITOUCH")
        = Some 1)
  /\ (forall r,
        option_map
          (fun mode =>
             read_member ipts_set_mode_cmd.layout "sensor_mode"
               (ipts_set_mode_cmd.serialize (ipts_set_mode_cmd.mk mode r)))
          (enum_value ipts_sensor_mode "IPTS_SENSOR_MODE_SINGLETOUCH")
        = Some 0).
Proof.
  repeat apply conj; try reflexivity.
  intros mode r bs; subst bs; repeat apply conj; try reflexivity.
  change (load_le (store_le 4 mode) = mode mod 2 ^ 32).
  apply load_store_le.
Qed.

(** C10: the feedback payload is a 32-bit buffer index at offset 0, a 32-bit
    transaction id at offset 4 and eight reserved bytes; a payload built
    from a buffer index [b] and a transaction id [t] reads back as [b] and
    [t]. *)
Theorem feedback_payload_roundtrip (b t : Z) (r : nat -> Z) :
  0 <= b < 2 ^ 32 ->
  0 <= t < 2 ^ 32 ->
  let bs := ipts_feedback_cmd.serialize (ipts_feedback_cmd.mk b t r) in
  (member_slot ipts_feedback_cmd.layout "buffer" = Some (0, U32)
   /\ member_slot ipts_feedback_cmd.layout "transaction" = Some (4, U32)
   /\ member_slot ipts_feedback_cmd.layout "reserved" = Some (8, Arr 8 U8)
   /\ length bs = 16%nat)
  /\ read_member ipts_feedback_cmd.layout "buffer" bs = b
  /\ read_member ipts_feedback_cmd.layout "transaction" bs = t.
Proof.
  intros Hb Ht bs; subst bs; repeat apply conj; try reflexivity.
  - change (load_le (store_le 4 b) = b); now apply load_store_le_small.
  - change (load_le (store_le 4 t) = t); now apply load_store_le_small.
Qed.

Lemma feedback_payload_roundtrip_witness :
  let bs := ipts_feedback_cmd.serialize
              (ipts_feedback_cmd.mk 3 0x01020304 (fun _ => 0)) in
  (member_slot ipts_feedback_cmd.layout "buffer" = Some (0, U32)
   /\ member_slot ipts_feedback_cmd.layout "transaction" = Some (4, U32)
   /\ member_slot ipts_feedback_cmd.layout "reserved" = Some (8, Arr 8 U8)
   /\ length bs = 16%nat)
  /\ read_member ipts_feedback_cmd.layout "buffer" bs = 3
  /\ read_member ipts_feedback_cmd.layout "transaction" bs = 0x01020304.
Proof.
  apply (feedback_payload_roundtrip 3 0x01020304 (fun _ => 0)); lia.
Defined.

(** * The doorbell and the buffer pool *)

(** C3: the data buffer a doorbell value [d] resolves to is [d mod 16], a
    pool index; 16 resolves to 0 and 17 to 1, and the index keeps stepping
    by one when the 32-bit counter itself wraps. *)
Theorem doorbell_buffer_index (d : Z) :
  buffer_index d = d mod 16
  /\ 0 <= buffer_index d < IPTS_BUFFERS
  /\ buffer_index 16 = 0
  /\ buffer_index 17 = 1
  /\ buffer_index (d + 16) = buffer_index d
  /\ buffer_index ((d + 1) mod 2 ^ 32) = (buffer_index d + 1) mod 16.
Proof.
  unfold buffer_index, IPTS_BUFFERS; repeat apply conj; try reflexivity.
  - apply Z.mod_pos_bound; lia.
  - apply Z.mod_pos_bound; lia.
  - replace (d + 16) with (d + 1 * 16) by lia; apply Z.mod_add; lia.
  - rewrite Z.mod_mod_divide by (exists (2 ^ 28); reflexivity).
    now rewrite Z.add_mod_idemp_l by lia.
Qed.



(** * The memory window *)

(** C4, as the claim has it: the memory-window payload would carry the
    address pairs of four singleton buffers.  It carries three, for the
    three singleton buffers the context holds. *)
Lemma mem_window_singletons_not_four :
  ~ (length (singles (addr_pairs ipts_set_mem_window_cmd.layout)) = 4%nat)
  /\ ~ (length (singles (pool_members ipts_context)) = 4%nat).
Proof. split; discriminate. Qed.

(** C4, amended: the memory-window payload carries, for every buffer of the
    context, its address as a lower and an upper 32-bit word: arrays of 16
    lower and 16 upper words for the data buffers, the same for the
    feedback buffers, one pair each for the three singleton buffers (work
    queue, doorbell, host-to-ME), and the work-queue item size and
    work-queue size members; every one of them is read back from the bytes
    of the payload. *)
Theorem mem_window_address_slots :
  (IPTS_BUFFERS = 16
   /\ addr_pairs ipts_set_mem_window_cmd.layout
      = [ ("data_buffer", Array IPTS_BUFFERS);
          ("workqueue", Single);
          ("doorbell", Single);
          ("feedback_buffer", Array IPTS_BUFFERS);
          ("host2me", Single) ]
   /\ pool_members ipts_context
      = [ ("data", Array IPTS_BUFFERS);
          ("doorbell", Single);
          ("feedback", Array IPTS_BUFFERS);
          ("workqueue", Single);
          ("host2me", Single) ]
   /\ length (singles (addr_pairs ipts_set_mem_window_cmd.layout)) = 3%nat
   /\ length (singles (pool_members ipts_context)) = 3%nat
   /\ total_count (addr_pairs ipts_set_mem_window_cmd.layout) = 35
   /\ total_count (pool_members ipts_context) = 35
   /\ forallb (carries_address_of ipts_set_mem_window_cmd.layout)
              (pool_members ipts_context) = true
   /\ forallb (addresses_buffer_of ipts_context)
              (addr_pairs ipts_set_mem_window_cmd.layout) = true)
  /\ map (member_slot ipts_set_mem_window_cmd.layout)
       [ "data_buffer_addr_lower"; "data_buffer_addr_upper";
         "workqueue_addr_lower"; "workqueue_addr_upper";
         "doorbell_addr_lower"; "doorbell_addr_upper";
         "feedback_buffer_addr_lower"; "feedback_buffer_addr_upper";
         "host2me_addr_lower"; "host2me_addr_upper";
         "workqueue_item_size"; "workqueue_size" ]
     = [ Some (0, Arr 16 U32); Some (64, Arr 16 U32);
         Some (128, U32); Some (132, U32);
         Some (136, U32); Some (140, U32);
         Some (144, Arr 16 U32); Some (208, Arr 16 U32);
         Some (272, U32); Some (276, U32);
         Some (285, U8); Some (286, U16) ]
  /\ forall w : ipts_set_mem_window_cmd.t,
       let bs := ipts_set_mem_window_cmd.serialize w in
       let member := read_member ipts_set_mem_window_cmd.layout in
       let cell := read_cell ipts_set_mem_window_cmd.layout in
       Forall (fun i =>
                 cell "data_buffer_addr_lower" i bs
                 = ipts_set_mem_window_cmd.data_buffer_addr_lower w i mod 2 ^ 32
                 /\ cell "data_buffer_addr_upper" i bs
                    = ipts_set_mem_window_cmd.data_buffer_addr_upper w i mod 2 ^ 32
                 /\ cell "feedback_buffer_addr_lower" i bs
                    = ipts_set_mem_window_cmd.feedback_buffer_addr_lower w i mod 2 ^ 32
                 /\ cell "feedback_buffer_addr_upper" i bs
                    = ipts_set_mem_window_cmd.feedback_buffer_addr_upper w i mod 2 ^ 32)
              (seq 0 16)
       /\ member "workqueue_addr_lower" bs
          = ipts_set_mem_window_cmd.workqueue_addr_lower w mod 2 ^ 32
       /\ member "workqueue_addr_upper" bs
          = ipts_set_mem_window_cmd.workqueue_addr_upper w mod 2 ^ 32
       /\ member "doorbell_addr_lower" bs
          = ipts_set_mem_window_cmd.doorbell_addr_lower w mod 2 ^ 32
       /\ member "doorbell_addr_upper" bs
          = ipts_set_mem_window_cmd.doorbell_addr_upper w mod 2 ^ 32
       /\ member "host2me_addr_lower" bs
          = ipts_set_mem_window_cmd.host2me_addr_lower w mod 2 ^ 32
       /\ member "host2me_addr_upper" bs
          = ipts_set_mem_window_cmd.host2me_addr_upper w mod 2 ^ 32
       /\ member "workqueue_item_size" bs
          = ipts_set_mem_window_cmd.workqueue_item_size w mod 2 ^ 8
       /\ member "workqueue_size" bs
          = ipts_set_mem_window_cmd.workqueue_size w mod 2 ^ 16.
Proof.
  split; [repeat apply conj; reflexivity|].
  split; [reflexivity|].
  intros w bs member cell; subst bs member cell; destruct w.
  cbn [ipts_set_mem_window_cmd.data_buffer_addr_lower
       ipts_set_mem_window_cmd.data_buffer_addr_upper
       ipts_set_mem_window_cmd.feedback_buffer_addr_lower
       ipts_set_mem_window_cmd.feedback_buffer_addr_upper
       ipts_set_mem_window_cmd.workqueue_addr_lower
       ipts_set_mem_window_cmd.workqueue_addr_upper
       ipts_set_mem_window_cmd.doorbell_addr_lower
       ipts_set_mem_window_cmd.doorbell_addr_upper
       ipts_set_mem_window_cmd.host2me_addr_lower
       ipts_set_mem_window_cmd.host2me_addr_upper
       ipts_set_mem_window_cmd.workqueue_item_size
       ipts_set_mem_window_cmd.workqueue_size].
  split; [|repeat apply conj; read_back].
  repeat (apply Forall_cons; [repeat apply conj; read_back|]).
  apply Forall_nil.
Qed.

(** * The driver context *)

(** C8, as the claim has it: the context would hold a device handle, the
    device info, the buffer pool, the memory window, the lifecycle state and
    the last doorbell value seen.  It holds no memory window, and its one
    integer member, the one-byte [ready] flag, cannot hold a doorbell
    value. *)
Lemma session_parts_not_as_listed :
  session_parts_listed ipts_context = false.
Proof. reflexivity. Qed.

(** C8, amended: the context holds two device handles ([cldev], [dev]), the
    device info (the member [device_info], written with the tag
    [ipts_get_device_info_rsp], which [protocol.h] does not declare), the
    buffer pool (16 data buffers, the doorbell, 16 feedback buffers, the
    work queue, the host-to-ME buffer) and a one-byte [ready] flag as its
    only state; it holds neither a memory window nor a member wide enough
    for a doorbell value. *)
Theorem session_parts_held :
  inventory ipts_context
  = [ ("cldev", Handle "mei_cl_device");
      ("dev", Handle "device");
      ("device_info", Named "ipts_get_device_info_rsp");
      ("data", Buffers (Array IPTS_BUFFERS));
      ("doorbell", Buffers Single);
      ("feedback", Buffers (Array IPTS_BUFFERS));
      ("workqueue", Buffers Single);
      ("host2me", Buffers Single);
      ("ready", Scalar 1) ]
  /\ IPTS_BUFFERS = 16
  /\ has_kind ipts_context is_handle = true
  /\ has_kind ipts_context is_device_info = true
  /\ declares "ipts_get_device_info_rsp" = false
  /\ declares "ipts_device_info" = true
  /\ has_pool ipts_context = true
  /\ has_kind ipts_context (is_scalar 1) = true
  /\ has_kind ipts_context (is_wire "ipts_set_mem_window_cmd") = false
  /\ has_kind ipts_context (is_scalar 2) = false
  /\ has_kind ipts_context (is_scalar 4) = false.
Proof. repeat apply conj; reflexivity. Qed.

(** * More on the C rules: decoding *)

Lemma store_load_le (l : list Z) :
  Forall is_byte l -> store_le (length l) (load_le l) = l.
Proof.
  induction 1 as [|b l Hb _ IH]; cbn [length store_le load_le]; [reflexivity|].
  unfold is_byte in Hb.
  rewrite <- (Z.mod_unique (b + 256 * load_le l) 256 (load_le l) b) by lia.
  rewrite <- (Z.div_unique (b + 256 * load_le l) 256 (load_le l) b) by lia.
  now rewrite IH.
Qed.

Lemma firstn_exact {A : Type} (n : nat) (l rest : list A) :
  length l = n -> firstn n (l ++ rest) = l.
Proof.
  intros <-; induction l as [|a l IH]; cbn [length app firstn].
  - now destruct rest.
  - now rewrite IH.
Qed.

Lemma skipn_exact {A : Type} (n : nat) (l rest : list A) :
  length l = n -> skipn n (l ++ rest) = rest.
Proof.
  intros <-; induction l as [|a l IH]; cbn [length app skipn];
    [reflexivity | exact IH].
Qed.

Lemma firstn_plus {A : Type} (a b : nat) (l : list A) :
  firstn (a + b) l = firstn a l ++ firstn b (skipn a l).
Proof.
  revert l; induction a as [|a IH]; intros l; cbn [Nat.add firstn skipn app].
  - reflexivity.
  - destruct l as [|x l]; cbn [firstn skipn app].
    + now rewrite firstn_nil.
    + now rewrite IH.
Qed.

Lemma plain_sizeof_nonneg (t : ctype) : plain t = true -> 0 <= sizeof t.
Proof.
  induction t as [ | | | n elem IH | tag ms IH | ms IH ] using ctype_members_ind;
    intros Hp; cbn [sizeof]; try lia.
  - cbn [plain] in Hp; apply andb_prop in Hp as [Hn He].
    apply Z.leb_le in Hn; specialize (IH He); nia.
  - induction IH as [|[n m] ms Hm _ IHms]; [lia|].
    change (plain m && plain (Struct tag ms) = true) in Hp.
    apply andb_prop in Hp as [Hpm Hpms]; cbn [snd] in Hm.
    specialize (Hm Hpm); specialize (IHms Hpms); lia.
  - discriminate.
Qed.

(** The image of a well-shaped value is read back as the value, truncated
    to the widths of its members, whatever bytes follow the image. *)
Lemma decode_encode (t : ctype) :
  plain t = true ->
  forall v rest, has_type t v = true ->
                 decode t (encode t v ++ rest) = Some (wrap t v).
Proof.
  induction t as [ | | | n elem IH | tag ms IH | ms IH ] using ctype_members_ind;
    intros Hp v rest Hv.
  - destruct v as [z| | |]; try discriminate; cbn [encode decode wrap].
    now rewrite firstn_exact, load_u8 by apply store_le_length.
  - destruct v as [z| | |]; try discriminate; cbn [encode decode wrap].
    now rewrite firstn_exact, load_u16 by apply store_le_length.
  - destruct v as [z| | |]; try discriminate; cbn [encode decode wrap].
    now rewrite firstn_exact, load_u32 by apply store_le_length.
  - destruct v as [|elems| |]; try discriminate.
    cbn [plain] in Hp; apply andb_prop in Hp as [_ Hp].
    cbn [has_type] in Hv; apply andb_prop in Hv as [Hn Hall].
    apply Z.eqb_eq in Hn; subst n.
    cbn [encode decode wrap]; rewrite Nat2Z.id.
    rewrite forallb_forall in Hall.
    enough (Hc : chunks (decode elem) (Z.to_nat (sizeof elem)) (length elems)
                   (flat_map (encode elem) elems ++ rest)
                 = Some (map (wrap elem) elems)) by now rewrite Hc.
    revert Hall; induction elems as [|e elems IHe]; intros Hall;
      cbn [length chunks flat_map map]; [reflexivity|].
    rewrite <- app_assoc, (IH Hp e _ (Hall e (or_introl eq_refl))).
    rewrite skipn_exact
      by (pose proof (encode_length elem e (Hall e (or_introl eq_refl))); lia).
    rewrite IHe; [reflexivity|].
    intros x Hx; apply Hall; now right.
  - destruct v as [| |vals|]; try discriminate.
    cbn [decode wrap].
    enough (Hc : forall vals rest,
               has_type (Struct tag ms) (VStruct vals) = true ->
               (fix each (ms : list (string * ctype)) (bs : list Z)
                  : option (list cval) :=
                  match ms with
                  | [] => Some []
                  | (_, m) :: ms' =>
                      match decode m bs, each ms' (skipn (Z.to_nat (sizeof m)) bs) with
                      | Some v, Some vs => Some (v :: vs)
                      | _, _ => None
                      end
                  end) ms (encode (Struct tag ms) (VStruct vals) ++ rest)
               = Some ((fix each (ms : list (string * ctype)) (vs : list cval)
                          : list cval :=
                          match ms, vs with
                          | (_, m) :: ms', v' :: vs' => wrap m v' :: each ms' vs'
                          | _, _ => []
                          end) ms vals)) by now rewrite Hc.
    clear vals rest Hv.
    induction IH as [|[n m] ms Hm _ IHms]; intros vals rest Hv.
    + reflexivity.
    + destruct vals as [|v vals]; [discriminate|].
      change (plain m && plain (Struct tag ms) = true) in Hp.
      apply andb_prop in Hp as [Hpm Hpms].
      change (has_type m v && has_type (Struct tag ms) (VStruct vals) = true) in Hv.
      apply andb_prop in Hv as [Hv Hvals]; cbn [snd] in Hm.
      change (encode (Struct tag ((n, m) :: ms)) (VStruct (v :: vals)))
        with (encode m v ++ encode (Struct tag ms) (VStruct vals)).
      rewrite <- app_assoc, (Hm Hpm v _ Hv).
      rewrite skipn_exact by (pose proof (encode_length m v Hv); lia).
      rewrite (IHms Hpms vals rest Hvals); reflexivity.
  - discriminate.
Qed.

Lemma Forall_firstn_keeps {A : Type} (P : A -> Prop) (n : nat) (l : list A) :
  Forall P l -> Forall P (firstn n l).
Proof.
  intros H; revert n; induction H as [|a l Ha _ IH]; intros [|n];
    cbn [firstn]; constructor; auto.
Qed.

Lemma Forall_skipn_keeps {A : Type} (P : A -> Prop) (n : nat) (l : list A) :
  Forall P l -> Forall P (skipn n l).
Proof.
  intros H; revert n; induction H as [|a l Ha Hl IH]; intros [|n];
    cbn [skipn]; auto.
Qed.

Lemma store_load_front (w : nat) (bs : list Z) :
  (w <= length bs)%nat -> Forall is_byte bs ->
  store_le w (load_le (firstn w bs)) = firstn w bs.
Proof.
  intros Hw Hbs.
  rewrite <- (firstn_length_le bs Hw) at 1.
  apply store_load_le, Forall_firstn_keeps, Hbs.
Qed.

(** Any bytes, if there are enough of them, are the image of a value: the
    one [decode] reads. *)
Lemma encode_decode (t : ctype) :
  plain t = true ->
  forall bs, sizeof t <= Z.of_nat (length bs) -> Forall is_byte bs ->
             exists v, decode t bs = Some v
                       /\ has_type t v = true
                       /\ encode t v = firstn (Z.to_nat (sizeof t)) bs.
Proof.
  induction t as [ | | | n elem IH | tag ms IH | ms IH ] using ctype_members_ind;
    intros Hp bs Hlen Hbs.
  - eexists; repeat split; cbn [encode sizeof] in *.
    apply (store_load_front 1); [lia | exact Hbs].
  - eexists; repeat split; cbn [encode sizeof] in *.
    apply (store_load_front 2); [lia | exact Hbs].
  - eexists; repeat split; cbn [encode sizeof] in *.
    apply (store_load_front 4); [lia | exact Hbs].
  - cbn [plain] in Hp; apply andb_prop in Hp as [Hn Hp]; apply Z.leb_le in Hn.
    pose proof (plain_sizeof_nonneg elem Hp) as Hs.
    cbn [sizeof] in Hlen |- *; cbn [decode].
    rewrite Z2Nat.inj_mul by lia.
    assert (Hk : (Z.to_nat n * Z.to_nat (sizeof elem) <= length bs)%nat) by nia.
    assert (Hc : exists vs,
               chunks (decode elem) (Z.to_nat (sizeof elem)) (Z.to_nat n) bs = Some vs
               /\ length vs = Z.to_nat n
               /\ forallb (has_type elem) vs = true
               /\ flat_map (encode elem) vs
                  = firstn (Z.to_nat n * Z.to_nat (sizeof elem)) bs).
    { clear Hlen Hn; revert bs Hbs Hk.
      induction (Z.to_nat n) as [|k IHk]; intros bs Hbs Hk; cbn [chunks].
      - exists []; repeat split.
      - destruct (IH Hp bs) as (v & Hd & Hv & He); [lia | exact Hbs |].
        destruct (IHk (skipn (Z.to_nat (sizeof elem)) bs)) as (vs & Hds & Hl & Hvs & Hes).
        + now apply Forall_skipn_keeps.
        + rewrite length_skipn; lia.
        + exists (v :: vs); rewrite Hd, Hds; repeat split.
          * cbn [length]; now rewrite Hl.
          * cbn [forallb]; now rewrite Hv, Hvs.
          * cbn [flat_map]; rewrite He, Hes.
            change (S k * Z.to_nat (sizeof elem))%nat
              with (Z.to_nat (sizeof elem) + k * Z.to_nat (sizeof elem))%nat.
            now rewrite firstn_plus. }
    destruct Hc as (vs & Hd & Hl & Hvs & Hes).
    exists (VArr vs); rewrite Hd; repeat split.
    + cbn [has_type]; rewrite Hvs, andb_true_r; apply Z.eqb_eq; lia.
    + exact Hes.
  - cbn [decode].
    enough (Hc : exists vs,
               (fix each (ms : list (string * ctype)) (bs : list Z)
                  : option (list cval) :=
                  match ms with
                  | [] => Some []
                  | (_, m) :: ms' =>
                      match decode m bs, each ms' (skipn (Z.to_nat (sizeof m)) bs) with
                      | Some v, Some vs => Some (v :: vs)
                      | _, _ => None
                      end
                  end) ms bs = Some vs
               /\ has_type (Struct tag ms) (VStruct vs) = true
               /\ encode (Struct tag ms) (VStruct vs)
                  = firstn (Z.to_nat (sizeof (Struct tag ms))) bs).
    { destruct Hc as (vs & Hd & Hv & He); exists (VStruct vs); now rewrite Hd. }
    revert bs Hlen Hbs; induction IH as [|[n m] ms Hm _ IHms]; intros bs Hlen Hbs.
    + exists []; repeat split.
    + change (plain m && plain (Struct tag ms) = true) in Hp.
      apply andb_prop in Hp as [Hpm Hpms]; cbn [snd] in Hm.
      change (sizeof (Struct tag ((n, m) :: ms)))
        with (sizeof m + sizeof (Struct tag ms)) in *.
      pose proof (plain_sizeof_nonneg m Hpm) as Hsm.
      pose proof (plain_sizeof_nonneg (Struct tag ms) Hpms) as Hsms.
      destruct (Hm Hpm bs) as (v & Hd & Hv & He); [lia | exact Hbs |].
      destruct (IHms Hpms (skipn (Z.to_nat (sizeof m)) bs)) as (vs & Hds & Hvs & Hes).
      * rewrite length_skipn; lia.
      * now apply Forall_skipn_keeps.
      * exists (v :: vs); rewrite Hd, Hds; repeat split.
        -- change (has_type m v && has_type (Struct tag ms) (VStruct vs) = true).
           now rewrite Hv, Hvs.
        -- change (encode (Struct tag ((n, m) :: ms)) (VStruct (v :: vs)))
             with (encode m v ++ encode (Struct tag ms) (VStruct vs)).
           now rewrite He, Hes, Z2Nat.inj_add, firstn_plus by lia.
  - discriminate.
Qed.

(** * The macros and the enumerations, further *)

(** What [IPTS_CMD] knows, as a table of tokens and codes. *)
Lemma IPTS_CMD_table (COMMAND : string) (c : Z) :
  IPTS_CMD COMMAND = Some c ->
  In (COMMAND, c)
     [ ("GET_DEVICE_INFO", 1); ("SET_MODE", 2); ("SET_MEM_WINDOW", 3);
       ("QUIESCE_IO", 4); ("READY_FOR_DATA", 5); ("FEEDBACK", 6);
       ("CLEAR_MEM_WINDOW", 7); ("NOTIFY_DEV_READY", 8) ].
Proof.
  unfold IPTS_CMD, enum_value; intros H; apply assoc_In in H.
  change (enum_values ipts_evt_code)
    with (map (fun e => (String.append "IPTS_EVT_" (fst e), snd e))
              [ ("GET_DEVICE_INFO", 1); ("SET_MODE", 2); ("SET_MEM_WINDOW", 3);
                ("QUIESCE_IO", 4); ("READY_FOR_DATA", 5); ("FEEDBACK", 6);
                ("CLEAR_MEM_WINDOW", 7); ("NOTIFY_DEV_READY", 8) ]) in H.
  apply in_map_iff in H as ([name code] & [= Hname ->] & Hin); cbn [fst] in Hname.
  now subst.
Qed.

Lemma IPTS_RSP_value (COMMAND : string) (c : Z) :
  IPTS_CMD COMMAND = Some c -> IPTS_RSP COMMAND = Some (c + 0x80000000).
Proof.
  intros H; pose proof (IPTS_CMD_range COMMAND c H) as Hc.
  unfold IPTS_RSP; rewrite H; cbn [option_map]; f_equal; apply Z.mod_small; lia.
Qed.

(** An equivalence between two closed equations: each side holds by
    computation or is refuted by it. *)
Ltac closed_iff :=
  split; intros ?H;
  first [ reflexivity | exfalso; cbv in H; discriminate H ].

(** X1: response codes keep commands apart and never pass for a command
    code.  For commands [A] and [B] with codes [a] and [b]: the response
    codes of [A] and [B] are equal only when [A] and [B] are the same
    command, the response code of [A] is not the code of [B], it has bit 31
    set where every command code has it clear, and clearing that bit gives
    [a] back. *)
Theorem response_codes_apart (A B : string) (a b : Z) :
  IPTS_CMD A = Some a ->
  IPTS_CMD B = Some b ->
  exists ra rb,
    IPTS_RSP A = Some ra /\ IPTS_RSP B = Some rb
    /\ (ra = rb <-> A = B)
    /\ (a = b <-> A = B)
    /\ ra <> b
    /\ Z.testbit ra 31 = true
    /\ Z.testbit b 31 = false
    /\ Z.land ra 0x7fffffff = a.
Proof.
  intros HA HB.
  exists (a + 0x80000000), (b + 0x80000000).
  rewrite (IPTS_RSP_value A a HA), (IPTS_RSP_value B b HB).
  apply IPTS_CMD_table in HA, HB; cbn [In] in HA, HB.
  repeat (destruct HA as [[= <- <-] | HA]; [|]); try contradiction;
    repeat (destruct HB as [[= <- <-] | HB]; [|]); try contradiction;
    (split; [reflexivity|]); (split; [reflexivity|]);
    (split; [closed_iff|]); (split; [closed_iff|]);
    (split; [intros H; cbv in H; discriminate H|]);
    repeat split.
Qed.

Lemma response_codes_apart_witness :
  exists ra rb,
    IPTS_RSP "FEEDBACK" = Some ra /\ IPTS_RSP "SET_MODE" = Some rb
    /\ (ra = rb <-> "FEEDBACK" = "SET_MODE")
    /\ (6 = 2 <-> "FEEDBACK" = "SET_MODE")
    /\ ra <> 2
    /\ Z.testbit ra 31 = true
    /\ Z.testbit 2 31 = false
    /\ Z.land ra 0x7fffffff = 6.
Proof.
  apply (response_codes_apart "FEEDBACK" "SET_MODE" 6 2); reflexivity.
Defined.

(** What [ipts_me_status] holds, as a table of names and codes. *)
Lemma status_table (name : string) (v : Z) :
  enum_value ipts_me_status name = Some v ->
  In (name, v) (enum_values ipts_me_status).
Proof. apply assoc_In. Qed.

(** X3: [IPTS_ME_STATUS_MAX] closes the status codes.  Every status code
    lies in 0..20, and it is 20 only for [IPTS_ME_STATUS_MAX] itself; two
    status names have the same code only when they are the same name; and
    every number from 0 to 19 is the code of a status. *)
Theorem status_codes_closed (name1 name2 : string) (v1 v2 : Z) :
  enum_value ipts_me_status name1 = Some v1 ->
  enum_value ipts_me_status name2 = Some v2 ->
  enum_value ipts_me_status "IPTS_ME_STATUS_MAX" = Some 20
  /\ 0 <= v1 <= 20
  /\ (v1 = 20 <-> name1 = "IPTS_ME_STATUS_MAX")
  /\ (v1 = v2 <-> name1 = name2)
  /\ (forall v, 0 <= v < 20 ->
                exists name, enum_value ipts_me_status name = Some v
                             /\ name <> "IPTS_ME_STATUS_MAX").
Proof.
  intros H1 H2; apply status_table in H1, H2.
  split; [reflexivity|].
  assert (Hcover : forall v, 0 <= v < 20 ->
                             exists name, enum_value ipts_me_status name = Some v
                                          /\ name <> "IPTS_ME_STATUS_MAX").
  { intros v Hv.
    assert (Hnth : exists k, (k < 20)%nat /\ v = Z.of_nat k)
      by (exists (Z.to_nat v); lia).
    destruct Hnth as (k & Hk & ->).
    exists (nth k (map fst (enum_values ipts_me_status)) "").
    do 20 (destruct k as [|k]; [split; [reflexivity | discriminate]|]).
    lia. }
  cbn in H1, H2.
  repeat (destruct H1 as [[= <- <-] | H1]; [|]); try contradiction;
    repeat (destruct H2 as [[= <- <-] | H2]; [|]); try contradiction;
    (split; [lia|]); (split; [closed_iff|]); (split; [closed_iff | exact Hcover]).
Qed.

Lemma status_codes_closed_witness :
  enum_value ipts_me_status "IPTS_ME_STATUS_MAX" = Some 20
  /\ 0 <= 4 <= 20
  /\ (4 = 20 <-> "IPTS_ME_STATUS_NOT_READY" = "IPTS_ME_STATUS_MAX")
  /\ (4 = 14 <-> "IPTS_ME_STATUS_NOT_READY" = "IPTS_ME_STATUS_TIMEOUT")
  /\ (forall v, 0 <= v < 20 ->
                exists name, enum_value ipts_me_status name = Some v
                             /\ name <> "IPTS_ME_STATUS_MAX").
Proof.
  apply (status_codes_closed "IPTS_ME_STATUS_NOT_READY" "IPTS_ME_STATUS_TIMEOUT" 4 14);
    reflexivity.
Defined.

(** * The wire structures, further *)

Lemma status_range (name : string) (v : Z) :
  enum_value ipts_me_status name = Some v -> 0 <= v <= 20.
Proof.
  intros H; apply status_table in H; cbn in H.
  repeat (destruct H as [[= _ <-] | H]; [lia|]); contradiction.
Qed.

(** X4: nothing is lost in the image of a payload but what does not fit
    its members.  For the mode-select, memory-window, feedback and
    device-info structures, decoding the image of any record gives the
    record back with every integer truncated to the width of its member. *)
Theorem payload_images_decode :
  (forall c, decode ipts_set_mode_cmd.layout (ipts_set_mode_cmd.serialize c)
             = Some (wrap ipts_set_mode_cmd.layout (ipts_set_mode_cmd.to_val c)))
  /\ (forall c, decode ipts_set_mem_window_cmd.layout
                  (ipts_set_mem_window_cmd.serialize c)
                = Some (wrap ipts_set_mem_window_cmd.layout
                          (ipts_set_mem_window_cmd.to_val c)))
  /\ (forall c, decode ipts_feedback_cmd.layout (ipts_feedback_cmd.serialize c)
                = Some (wrap ipts_feedback_cmd.layout (ipts_feedback_cmd.to_val c)))
  /\ (forall c, decode ipts_device_info.layout (ipts_device_info.serialize c)
                = Some (wrap ipts_device_info.layout (ipts_device_info.to_val c))).
Proof.
  repeat apply conj; intros c.
  - unfold ipts_set_mode_cmd.serialize.
    rewrite <- (app_nil_r (encode _ _)).
    apply decode_encode; [reflexivity | apply set_mode_typed].
  - unfold ipts_set_mem_window_cmd.serialize.
    rewrite <- (app_nil_r (encode _ _)).
    apply decode_encode; [reflexivity | apply set_mem_window_typed].
  - unfold ipts_feedback_cmd.serialize.
    rewrite <- (app_nil_r (encode _ _)).
    apply decode_encode; [reflexivity | apply feedback_typed].
  - unfold ipts_device_info.serialize.
    rewrite <- (app_nil_r (encode _ _)).
    apply decode_encode; [reflexivity | apply device_info_typed].
Qed.

(** X5: every buffer of the right length is the image of a value.  For the
    mode-select, memory-window, feedback and device-info structures, any
    [sizeof] bytes decode to a value of the structure's shape whose image
    is those bytes again: the packed structures have no padding and no bit
    pattern that stands for nothing. *)
Theorem payload_buffers_are_images (t : ctype) (bs : list Z) :
  In t [ ipts_set_mode_cmd.layout; ipts_set_mem_window_cmd.layout;
         ipts_feedback_cmd.layout; ipts_device_info.layout ] ->
  Z.of_nat (length bs) = sizeof t ->
  Forall is_byte bs ->
  exists v, decode t bs = Some v /\ has_type t v = true /\ encode t v = bs.
Proof.
  intros Ht Hlen Hbs.
  assert (Hp : plain t = true).
  { cbn [In] in Ht; destruct Ht as [<- | [<- | [<- | [<- | []]]]]; reflexivity. }
  destruct (encode_decode t Hp bs) as (v & Hd & Hv & He); [lia | exact Hbs |].
  exists v; repeat split; try assumption.
  rewrite He, <- Hlen, Nat2Z.id; apply firstn_all.
Qed.

Lemma payload_buffers_are_images_witness :
  exists v,
    decode ipts_feedback_cmd.layout [3; 0; 0; 0; 4; 3; 2; 1; 0; 0; 0; 0; 0; 0; 0; 0]
    = Some v
    /\ has_type ipts_feedback_cmd.layout v = true
    /\ encode ipts_feedback_cmd.layout v
       = [3; 0; 0; 0; 4; 3; 2; 1; 0; 0; 0; 0; 0; 0; 0; 0].
Proof.
  apply (payload_buffers_are_images ipts_feedback_cmd.layout
           [3; 0; 0; 0; 4; 3; 2; 1; 0; 0; 0; 0; 0; 0; 0; 0]).
  - cbn [In]; tauto.
  - reflexivity.
  - repeat constructor; unfold is_byte; lia.
Defined.

(** X6: a command record is its code followed by its parameters.  For every
    command the macros know and whatever parameters it carries, the code is
    read back unchanged from offset 0, the parameters start at offset 4
    whichever member of the union they are, and the bytes found there are
    the image of the parameters on their own. *)
Theorem command_record_composition
  (COMMAND : string) (c : Z) (d : ipts_command.data_t) :
  IPTS_CMD COMMAND = Some c ->
  let bs := ipts_command.serialize (ipts_command.mk c d) in
  read_member ipts_command.layout "code" bs = c
  /\ match d with
     | ipts_command.set_mode p =>
         nested_slot ipts_command.layout ["data"; "set_mode"]
         = Some (4, ipts_set_mode_cmd.layout)
         /\ slice 4 16 bs = ipts_set_mode_cmd.serialize p
     | ipts_command.set_mem_window p =>
         nested_slot ipts_command.layout ["data"; "set_mem_window"]
         = Some (4, ipts_set_mem_window_cmd.layout)
         /\ slice 4 320 bs = ipts_set_mem_window_cmd.serialize p
     | ipts_command.feedback p =>
         nested_slot ipts_command.layout ["data"; "feedback"]
         = Some (4, ipts_feedback_cmd.layout)
         /\ slice 4 16 bs = ipts_feedback_cmd.serialize p
     end.
Proof.
  intros Hc bs; subst bs; apply IPTS_CMD_range in Hc; split.
  - transitivity (c mod 2 ^ 32); [|apply Z.mod_small; lia].
    destruct d; read_back.
  - destruct d as [p|p|p]; split; reflexivity.
Qed.

Lemma command_record_composition_witness :
  let d := ipts_command.feedback (ipts_feedback_cmd.mk 3 7 (fun _ => 0)) in
  let bs := ipts_command.serialize (ipts_command.mk 6 d) in
  read_member ipts_command.layout "code" bs = 6
  /\ match d with
     | ipts_command.set_mode p =>
         nested_slot ipts_command.layout ["data"; "set_mode"]
         = Some (4, ipts_set_mode_cmd.layout)
         /\ slice 4 16 bs = ipts_set_mode_cmd.serialize p
     | ipts_command.set_mem_window p =>
         nested_slot ipts_command.layout ["data"; "set_mem_window"]
         = Some (4, ipts_set_mem_window_cmd.layout)
         /\ slice 4 320 bs = ipts_set_mem_window_cmd.serialize p
     | ipts_command.feedback p =>
         nested_slot ipts_command.layout ["data"; "feedback"]
         = Some (4, ipts_feedback_cmd.layout)
         /\ slice 4 16 bs = ipts_feedback_cmd.serialize p
     end.
Proof.
  apply (command_record_composition "FEEDBACK" 6
           (ipts_command.feedback (ipts_feedback_cmd.mk 3 7 (fun _ => 0)))).
  reflexivity.
Defined.

(** X7: a response record is its code, its status and its data.  For the
    response code of every command and every status code, both are read
    back unchanged from offsets 0 and 4; when the data is a device info, its
    image starts at offset 8 and each of its members is read at 8 plus its
    own offset: the data size at 20, the feedback size at 24. *)
Theorem response_record_composition
  (COMMAND status : string) (r s : Z) (p : ipts_device_info.t) :
  IPTS_RSP COMMAND = Some r ->
  enum_value ipts_me_status status = Some s ->
  let bs := ipts_response.serialize
              (ipts_response.mk r s (ipts_response.device_info p)) in
  let at_path := read_path ipts_response.layout in
  (read_member ipts_response.layout "code" bs = r
   /\ read_member ipts_response.layout "status" bs = s)
  /\ (nested_slot ipts_response.layout ["data"; "device_info"]
      = Some (8, ipts_device_info.layout)
      /\ slice 8 44 bs = ipts_device_info.serialize p)
  /\ (nested_slot ipts_response.layout ["data"; "device_info"; "data_size"]
      = Some (20, U32)
      /\ nested_slot ipts_response.layout ["data"; "device_info"; "feedback_size"]
         = Some (24, U32))
  /\ at_path ["data"; "device_info"; "vendor_id"] bs
     = ipts_device_info.vendor_id p mod 2 ^ 16
  /\ at_path ["data"; "device_info"; "device_id"] bs
     = ipts_device_info.device_id p mod 2 ^ 16
  /\ at_path ["data"; "device_info"; "hw_rev"] bs
     = ipts_device_info.hw_rev p mod 2 ^ 32
  /\ at_path ["data"; "device_info"; "fw_rev"] bs
     = ipts_device_info.fw_rev p mod 2 ^ 32
  /\ at_path ["data"; "device_info"; "data_size"] bs
     = ipts_device_info.data_size p mod 2 ^ 32
  /\ at_path ["data"; "device_info"; "feedback_size"] bs
     = ipts_device_info.feedback_size p mod 2 ^ 32.
Proof.
  intros Hr Hs bs at_path; subst bs at_path.
  apply status_range in Hs.
  assert (Hrange : 0 <= r < 2 ^ 32).
  { unfold IPTS_RSP in Hr; destruct (IPTS_CMD COMMAND) as [c|] eqn:Hc;
      [|discriminate].
    apply IPTS_CMD_range in Hc; cbn [option_map] in Hr; injection Hr as <-.
    apply Z.mod_pos_bound; lia. }
  destruct p; cbn [ipts_device_info.vendor_id ipts_device_info.device_id
                   ipts_device_info.hw_rev ipts_device_info.fw_rev
                   ipts_device_info.data_size ipts_device_info.feedback_size].
  split; [split|split; [split; reflexivity|split; [split; reflexivity|]]].
  - transitivity (r mod 2 ^ 32); [read_back | apply Z.mod_small; lia].
  - transitivity (s mod 2 ^ 32); [read_back | apply Z.mod_small; lia].
  - repeat apply conj; read_back.
Qed.

Lemma response_record_composition_witness :
  let p := ipts_device_info.mk 0x045e 0x0021 1 2 7487 1520 (fun _ => 0) in
  let bs := ipts_response.serialize
              (ipts_response.mk 0x80000001 0 (ipts_response.device_info p)) in
  let at_path := read_path ipts_response.layout in
  (read_member ipts_response.layout "code" bs = 0x80000001
   /\ read_member ipts_response.layout "status" bs = 0)
  /\ (nested_slot ipts_response.layout ["data"; "device_info"]
      = Some (8, ipts_device_info.layout)
      /\ slice 8 44 bs = ipts_device_info.serialize p)
  /\ (nested_slot ipts_response.layout ["data"; "device_info"; "data_size"]
      = Some (20, U32)
      /\ nested_slot ipts_response.layout ["data"; "device_info"; "feedback_size"]
         = Some (24, U32))
  /\ at_path ["data"; "device_info"; "vendor_id"] bs
     = ipts_device_info.vendor_id p mod 2 ^ 16
  /\ at_path ["data"; "device_info"; "device_id"] bs
     = ipts_device_info.device_id p mod 2 ^ 16
  /\ at_path ["data"; "device_info"; "hw_rev"] bs
     = ipts_device_info.hw_rev p mod 2 ^ 32
  /\ at_path ["data"; "device_info"; "fw_rev"] bs
     = ipts_device_info.fw_rev p mod 2 ^ 32
  /\ at_path ["data"; "device_info"; "data_size"] bs
     = ipts_device_info.data_size p mod 2 ^ 32
  /\ at_path ["data"; "device_info"; "feedback_size"] bs
     = ipts_device_info.feedback_size p mod 2 ^ 32.
Proof.
  apply (response_record_composition "GET_DEVICE_INFO" "IPTS_ME_STATUS_SUCCESS"
           0x80000001 0
           (ipts_device_info.mk 0x045e 0x0021 1 2 7487 1520 (fun _ => 0)));
    reflexivity.
Defined.

(** X8: the two address words of the memory window hold a 64-bit address.
    For every buffer of the window and every address below 2^64, when the
    window holds the address as its low 32 bits and its high 32 bits, the
    two words read from the bytes of the payload join to the address. *)
Theorem window_holds_64bit_addresses
  (w : ipts_set_mem_window_cmd.t) (b : window_buffer) (a : Z) :
  in_window b = true ->
  0 <= a < 2 ^ 64 ->
  stored_halves w b = (a mod 2 ^ 32, a / 2 ^ 32) ->
  join_halves (read_halves (ipts_set_mem_window_cmd.serialize w) b) = a.
Proof.
  intros Hb Ha Hw.
  assert (Hread : read_halves (ipts_set_mem_window_cmd.serialize w) b
                  = (fst (stored_halves w b) mod 2 ^ 32,
                     snd (stored_halves w b) mod 2 ^ 32)).
  { clear Hw; destruct w; destruct b as [i| | |i|]; cbn [in_window] in Hb;
      cbn [stored_halves fst snd
           ipts_set_mem_window_cmd.data_buffer_addr_lower
           ipts_set_mem_window_cmd.data_buffer_addr_upper
           ipts_set_mem_window_cmd.feedback_buffer_addr_lower
           ipts_set_mem_window_cmd.feedback_buffer_addr_upper
           ipts_set_mem_window_cmd.workqueue_addr_lower
           ipts_set_mem_window_cmd.workqueue_addr_upper
           ipts_set_mem_window_cmd.doorbell_addr_lower
           ipts_set_mem_window_cmd.doorbell_addr_upper
           ipts_set_mem_window_cmd.host2me_addr_lower
           ipts_set_mem_window_cmd.host2me_addr_upper];
      unfold read_halves.
    - apply Z.ltb_lt in Hb; unfold IPTS_BUFFERS in Hb.
      do 16 (destruct i as [|i]; [f_equal; read_back|]); lia.
    - f_equal; read_back.
    - f_equal; read_back.
    - apply Z.ltb_lt in Hb; unfold IPTS_BUFFERS in Hb.
      do 16 (destruct i as [|i]; [f_equal; read_back|]); lia.
    - f_equal; read_back. }
  rewrite Hread, Hw; unfold join_halves; cbn [fst snd].
  rewrite Z.mod_mod by lia.
  rewrite (Z.mod_small (a / 2 ^ 32)).
  - symmetry; rewrite Z.add_comm; apply Z.div_mod; lia.
  - split; [apply Z.div_pos; lia | apply Z.div_lt_upper_bound; lia].
Qed.

Lemma window_holds_64bit_addresses_witness :
  join_halves
    (read_halves
       (ipts_set_mem_window_cmd.serialize
          (ipts_set_mem_window_cmd.mk
             (fun _ => 0) (fun _ => 0) 0 0 0x89abc000 0x1234567
             (fun _ => 0) (fun _ => 0) 0 0 0 0 0 0 (fun _ => 0)))
       WDoorbell)
  = 0x123456789abc000.
Proof.
  apply (window_holds_64bit_addresses
           (ipts_set_mem_window_cmd.mk
              (fun _ => 0) (fun _ => 0) 0 0 0x89abc000 0x1234567
              (fun _ => 0) (fun _ => 0) 0 0 0 0 0 0 (fun _ => 0))
           WDoorbell 0x123456789abc000);
    [reflexivity | lia | reflexivity].
Defined.

(** X9: the members of a data union lie over each other, so the bytes do
    not say which member was written.  A command written with feedback
    parameters shows the buffer index where a mode-select command has its
    sensor mode, and the other way round; a memory-window command shows its
    first data address word there; and a response written as raw reserved
    bytes shows its first two bytes as the vendor id of a device info. *)
Theorem union_members_overlap :
  (forall c p,
      read_path ipts_command.layout ["data"; "set_mode"; "sensor_mode"]
        (ipts_command.serialize (ipts_command.mk c (ipts_command.feedback p)))
      = ipts_feedback_cmd.buffer p mod 2 ^ 32)
  /\ (forall c p,
         read_path ipts_command.layout ["data"; "feedback"; "buffer"]
           (ipts_command.serialize (ipts_command.mk c (ipts_command.set_mode p)))
         = ipts_set_mode_cmd.sensor_mode p mod 2 ^ 32)
  /\ (forall c p,
         read_path ipts_command.layout ["data"; "set_mode"; "sensor_mode"]
           (ipts_command.serialize
              (ipts_command.mk c (ipts_command.set_mem_window p)))
         = ipts_set_mem_window_cmd.data_buffer_addr_lower p 0 mod 2 ^ 32)
  /\ (forall r s bytes,
         read_path ipts_response.layout ["data"; "device_info"; "vendor_id"]
           (ipts_response.serialize
              (ipts_response.mk r s (ipts_response.reserved bytes)))
         = bytes 0%nat mod 256 + 256 * (bytes 1%nat mod 256)).
Proof.
  repeat apply conj.
  - intros c [b t r]; cbn [ipts_feedback_cmd.buffer]; read_back.
  - intros c [m r]; cbn [ipts_set_mode_cmd.sensor_mode]; read_back.
  - intros c p; destruct p;
      cbn [ipts_set_mem_window_cmd.data_buffer_addr_lower]; read_back.
  - intros r s bytes.
    change (bytes 0%nat mod 256 + 256 * (bytes 1%nat mod 256 + 256 * 0)
            = bytes 0%nat mod 256 + 256 * (bytes 1%nat mod 256)).
    now rewrite Z.mul_0_r, Z.add_0_r.
Qed.
